(** * Mastermind: scoring engine of [mastermind.cpp]

    A shallow embedding of the class [Mastermind] (the hidden pegs, the
    colour count and the remaining-tries counter) and of its three member
    functions [guess], [turnsLeft] and [peer].

    - [uint32_t] values are integers of [Z]; every increment and decrement
      the source performs on one is written with its reduction modulo 2^32.
    - [array<uint32_t, PEG_SLOTS>] and the two local [bool] arrays are lists,
      read with [nth] and written with stdpp's [<[i:=x]>].
    - A member function takes the object and returns its result together
      with the object after the call.

    The constructor draws the hidden pegs from a random engine and [main]
    is the console loop around the class; neither is needed for the
    properties below, which hold for every object with four hidden pegs. *)

From Stdlib Require Import ZArith Lia List.
From stdpp Require Import base list gmap strings.
Import ListNotations.

Local Open Scope Z_scope.

(** ** Constants and machine arithmetic *)

Definition PEG_SLOTS : Z := 4.
Definition MIN_PEG_COLORS : Z := 2.
Definition MAX_PEG_COLORS : Z := MIN_PEG_COLORS + 8.
Definition MIN_TRIES_ALLOWED : Z := 2.

Definition UINT32_MOD : Z := 2 ^ 32.

(** Reduction of an integer to the range of [uint32_t]. *)
Definition u32 (z : Z) : Z := z mod UINT32_MOD.

Definition is_u32 (z : Z) : Prop := 0 <= z < UINT32_MOD.

(** The values [0 .. PEG_SLOTS-1] taken by the loop variable of
    [for (uint32_t i = 0; i < PEG_SLOTS; ++i)], in order. *)
Definition slots : list nat := seq 0 (Z.to_nat PEG_SLOTS).

(** ** The object *)

Record Mastermind : Type := mkMastermind {
  m_hidden_pegs : list Z;
  m_peg_colors : Z;
  m_tries_allowed : Z
}.

(** What [guess] hands back: its return value and the two reference
    parameters [black_keys] and [white_keys]. *)
Record Score : Type := mkScore {
  win : bool;
  black_keys : Z;
  white_keys : Z
}.

(** ** [Mastermind::guess] *)

(** One iteration of the loop under [// Find black keys]. *)
Definition black_iter (pegs hidden : list Z) (st : Z * list bool) (i : nat)
  : Z * list bool :=
  let '(bk, black_matched) := st in
  if nth i pegs 0 =? nth i hidden 0
  then (u32 (bk + 1), <[i:=true]> black_matched)
  else (bk, black_matched).

Definition find_black (pegs hidden : list Z) : Z * list bool :=
  fold_left (black_iter pegs hidden) slots
            (0, replicate (Z.to_nat PEG_SLOTS) false).

(** The inner loop over [j] for a fixed [i]; [js] are the values of [j] still
    to be visited.  [continue] is the recursive call, [break] the return. *)
Fixpoint white_scan (pegs hidden : list Z) (black_matched : list bool)
    (i : nat) (js : list nat) (st : Z * list bool) : Z * list bool :=
  match js with
  | [] => st
  | j :: js' =>
      let '(wk, white_matched) := st in
      if nth j black_matched false || nth j white_matched false
      then white_scan pegs hidden black_matched i js' st
      else if nth i pegs 0 =? nth j hidden 0
      then (u32 (wk + 1), <[j:=true]> white_matched)
      else white_scan pegs hidden black_matched i js' st
  end.

(** One iteration of the outer loop under [// Find white keys]. *)
Definition white_iter (pegs hidden : list Z) (black_matched : list bool)
    (st : Z * list bool) (i : nat) : Z * list bool :=
  if nth i black_matched false
  then st
  else white_scan pegs hidden black_matched i slots st.

Definition find_white (pegs hidden : list Z) (black_matched : list bool)
  : Z * list bool :=
  fold_left (white_iter pegs hidden black_matched) slots
            (0, replicate (Z.to_nat PEG_SLOTS) false).

Definition guess (pegs : list Z) (self : Mastermind) : Score * Mastermind :=
  let self' := {| m_hidden_pegs := m_hidden_pegs self;
                  m_peg_colors := m_peg_colors self;
                  m_tries_allowed := u32 (m_tries_allowed self - 1) |} in
  let '(bk, black_matched) := find_black pegs (m_hidden_pegs self') in
  let '(wk, _) := find_white pegs (m_hidden_pegs self') black_matched in
  ({| win := if bk =? PEG_SLOTS then true else false;
      black_keys := bk;
      white_keys := wk |}, self').

(** ** [Mastermind::turnsLeft] and [Mastermind::peer] *)

Definition turnsLeft (self : Mastermind) : Z * Mastermind :=
  (m_tries_allowed self, self).

(** [pegs] is the caller's array; the result is that array after the call. *)
Definition peer (pegs : list Z) (self : Mastermind) : list Z * Mastermind :=
  (fold_left (fun a i => <[i := nth i (m_hidden_pegs self) 0]> a) slots pegs,
   self).

(** ** The scoring rule, as the specification words it

    Pass 1 marks the positions with an exact match as consumed on both
    sides.  Pass 2 visits the unconsumed guess positions in increasing
    order; each one scans the unconsumed secret positions in increasing
    order and takes the first whose value matches. *)

Module Greedy.

Definition exact_matches (G S : list Z) : gset nat :=
  list_to_set (filter (λ i, nth i G 0 = nth i S 0) slots).

Definition first_match (G S : list Z) (consumed : gset nat) (i : nat)
  : option nat :=
  List.find (λ j, nth i G 0 =? nth j S 0)
            (filter (λ j, j ∉ consumed) slots).

(** [matched] records, oldest first, which guess position took which secret
    position. *)
Record state : Type := mkState {
  whiteKeys : Z;
  consumed : gset nat;
  matched : list (nat * nat)
}.

Definition step (G S : list Z) (st : state) (i : nat) : state :=
  match first_match G S (consumed st) i with
  | Some j => {| whiteKeys := whiteKeys st + 1;
                 consumed := {[ j ]} ∪ consumed st;
                 matched := matched st ++ [(i, j)] |}
  | None => st
  end.

Definition pass2 (G S : list Z) : state :=
  fold_left (step G S)
            (filter (λ i, i ∉ exact_matches G S) slots)
            {| whiteKeys := 0; consumed := exact_matches G S; matched := [] |}.

End Greedy.

(** ** The multiset reference for the number of colour matches *)

Definition occurrences (v : Z) (l : list Z) : Z :=
  Z.of_nat (count_occ Z.eq_dec l v).

(** Sum over the colour values [colors] of the smaller of the two
    occurrence counts. *)
Definition color_matches (colors G S : list Z) : Z :=
  foldr Z.add 0 (map (λ v, Z.min (occurrences v G) (occurrences v S)) colors).

(** A colour-only matching of a guess [G] with a secret [S]: pairs (guess
    position, secret position) of equal value, no position of a pair an
    exact match, no guess position and no secret position in two pairs. *)
Definition color_only_matching (G S : list Z) (M : list (nat * nat)) : Prop :=
  NoDup M.*1 ∧ NoDup M.*2
  ∧ ∀ i j, (i, j) ∈ M →
      (i < 4)%nat ∧ (j < 4)%nat
      ∧ nth i G 0 ≠ nth i S 0 ∧ nth j G 0 ≠ nth j S 0
      ∧ nth i G 0 = nth j S 0.

(** ** Sequences of calls *)

(** A call a client can make on the object. *)
Inductive call : Type :=
  | CallGuess (pegs : list Z)
  | CallTurnsLeft
  | CallPeer (pegs : list Z).

(** The object after one call, and after a sequence of calls. *)
Definition perform (self : Mastermind) (c : call) : Mastermind :=
  match c with
  | CallGuess pegs => (guess pegs self).2
  | CallTurnsLeft => (turnsLeft self).2
  | CallPeer pegs => (peer pegs self).2
  end.

Definition run (calls : list call) (self : Mastermind) : Mastermind :=
  fold_left perform calls self.

(** Number of calls of [guess] in a sequence of calls. *)
Definition guesses_in (calls : list call) : Z :=
  Z.of_nat (length (List.filter
    (λ c, match c with CallGuess _ => true | _ => false end) calls)).

(** ** The constructor

    [draw i] is what the [i]-th call [u(e)] of the constructor's loop
    returns; the distribution [u] is built with the bounds 0 and
    [m_peg_colors - 1].  The array [m_hidden_pegs] has no initialiser: it is
    taken to hold zeros before the loop, which then writes every element. *)

Definition Mastermind_new (colors tries : Z) (draw : nat → Z) : Mastermind :=
  {| m_hidden_pegs :=
       fold_left (λ a i, <[i := draw i]> a) slots
                 (replicate (Z.to_nat PEG_SLOTS) 0);
     m_peg_colors := colors;
     m_tries_allowed := tries |}.


(** ** [main]

    What [main] inserts into [cout], piece by piece. *)

Inductive token : Type :=
  | Text (s : string)
  | Num (n : Z)
  | Endl.

(** The arguments after the program name, scanned by the loop
    [for (int i = 1; i < argc; ++i)].  [cfg] is the pair
    ([peg_colors], [tries_allowed]); [atoi] is the C library function, whose
    [int] result is converted to [uint32_t] by the assignment.  A flag in
    last position makes the source call [atoi(argv[argc])], a null pointer:
    the scan has no result then. *)
Fixpoint scan_args (atoi : string → Z) (args : list string) (cfg : Z * Z)
  : option (Z * Z) :=
  match args with
  | [] => Some cfg
  | a :: rest =>
      if String.prefix "-c" a then
        match rest with
        | v :: rest' => scan_args atoi rest' (u32 (atoi v), cfg.2)
        | [] => None
        end
      else if String.prefix "-t" a then
        match rest with
        | v :: rest' => scan_args atoi rest' (cfg.1, u32 (atoi v))
        | [] => None
        end
      else scan_args atoi rest cfg
  end.

(** The flags are read only when [argc] is 3 or 5. *)
Definition parse_args (atoi : string → Z) (argv : list string)
  : option (Z * Z) :=
  if (length argv =? 5)%nat || (length argv =? 3)%nat
  then scan_args atoi (tail argv) (8, 10)
  else Some (8, 10).

(** The three [if]s that bring the configuration within bounds, with what
    they print. *)
Definition clamp_config (cfg : Z * Z) : list token * (Z * Z) :=
  let '(peg_colors, tries_allowed) := cfg in
  let '(out1, peg_colors) :=
    if peg_colors >? MAX_PEG_COLORS
    then ([Text "Wrong number of colors,  set to "; Num MAX_PEG_COLORS; Endl],
          MAX_PEG_COLORS)
    else ([], peg_colors) in
  let '(out2, peg_colors) :=
    if peg_colors <? MIN_PEG_COLORS
    then ([Text "Wrong number of colors, set to "; Num MIN_PEG_COLORS; Endl],
          MIN_PEG_COLORS)
    else ([], peg_colors) in
  let '(out3, tries_allowed) :=
    if tries_allowed <? MIN_TRIES_ALLOWED
    then ([Text "Wrong turns, set to "; Num MIN_TRIES_ALLOWED; Endl],
          MIN_TRIES_ALLOWED)
    else ([], tries_allowed) in
  (out1 ++ out2 ++ out3, (peg_colors, tries_allowed)).

Definition usage : list token :=
  [Text "Usage: mastermind [OPTION]"; Endl;
   Text "Options: "; Endl;
   Text " -c NUMBER            [0 --> NUMBER) are the numbers used as color peg,";
   Text "it should be great than 1 and less than 10, the default number is 8";
   Endl;
   Text " -t TRIES_ALLOWED     How many turns are allowed to try, ";
   Text "it should be great than 1, the default value is 10"; Endl].

Definition banner (peg_colors tries_allowed : Z) : list token :=
  [Text "The game is starting. You can try "; Num tries_allowed;
   Text " turns to guess the "; Num PEG_SLOTS; Text " hidden numbers."; Endl;
   Text "Each hidden number is from 0 to "; Num (u32 (peg_colors - 1));
   Text "."; Endl].

Definition prompt (peg_colors : Z) : list token :=
  [Text "Please input "; Num PEG_SLOTS; Text " numbers[0 -- ";
   Num (u32 (peg_colors - 1)); Text "] separated by whitespace: "].

Definition keys_line (sc : Score) : list token :=
  [Text "Black keys: "; Num (black_keys sc);
   Text ", White keys: "; Num (white_keys sc); Endl].

Definition win_line : list token := [Text "Congratulations! You win!"; Endl].

Definition lost_lines (pegs : list Z) : list token :=
  [Text "Sorry! You lost!"; Endl; Text "The hidden pegs:"]
  ++ flat_map (λ a, [Text " "; Num a]) pegs ++ [Endl].

(** The four extractions [cin >> guess[i]] of one turn.  [cin] holds the
    numbers still to be read from a standard input made of numbers of the
    range of [uint32_t]; once it is empty an extraction fails and leaves
    its target as it was. *)
Definition read_guess (guess_arr cin : list Z) : list Z * list Z :=
  fold_left
    (λ (st : list Z * list Z) i,
       match st.2 with
       | v :: cin' => (<[i := v]> st.1, cin')
       | [] => (st.1, [])
       end)
    slots (guess_arr, cin).

(** The loop [while (game.turnsLeft() > 0)] and what follows it, down to
    [return 0]: the result is the output and the value [main] returns.
    [fuel] bounds the number of times the loop condition is evaluated. *)
Fixpoint game_loop (fuel : nat) (peg_colors : Z) (game : Mastermind)
    (guess_arr cin : list Z) : option (list token * Z) :=
  match fuel with
  | O => None
  | S fuel' =>
      if (turnsLeft game).1 >? 0 then
        let '(guess_arr', cin') := read_guess guess_arr cin in
        let '(sc, game') := guess guess_arr' game in
        if win sc then Some (prompt peg_colors ++ win_line, 0)
        else
          match game_loop fuel' peg_colors game' guess_arr' cin' with
          | Some (out, code) =>
              Some (prompt peg_colors ++ keys_line sc ++ out, code)
          | None => None
          end
      else
        Some (lost_lines (peer guess_arr game).1, 0)
  end.

(** [main]: [argv] is the argument vector, [draw] the values the constructor
    draws, [cin] the numbers on standard input.  The loop condition is
    evaluated at most once more than there are tries. *)
Definition main (atoi : string → Z) (draw : nat → Z) (cin : list Z)
    (argv : list string) : option (list token * Z) :=
  if (length argv =? 2)%nat && String.prefix "-h" (nth 1 argv "")
  then Some (usage, 0)
  else
    match parse_args atoi argv with
    | None => None
    | Some cfg =>
        let '(warnings, (peg_colors, tries_allowed)) := clamp_config cfg in
        let game := Mastermind_new peg_colors tries_allowed draw in
        match game_loop (S (Z.to_nat tries_allowed)) peg_colors game
                        (replicate (Z.to_nat PEG_SLOTS) 0) cin with
        | Some (out, code) =>
            Some (warnings ++ banner peg_colors tries_allowed ++ out, code)
        | None => None
        end
    end.

(** ** Notions used in the proofs *)

Definition sum_over (f : Z → Z) (colors : list Z) : Z :=
  foldr Z.add 0 (map f colors).

(** The test [pegs[i] == m_hidden_pegs[i]] of the first loop. *)
Definition same_at (pegs hidden : list Z) (i : nat) : bool :=
  nth i pegs 0 =? nth i hidden 0.

(** Number of positions at which the two sequences agree. *)
Definition exact_count (pegs hidden : list Z) : Z :=
  Z.of_nat (length (List.filter (same_at pegs hidden) slots)).

(** The array [black_matched] once the first loop is over. *)
Definition black_flags (pegs hidden : list Z) : list bool :=
  map (same_at pegs hidden) slots.

(** Secret position [j] passes the test
    [if (black_matched[j] || white_matched[j]) continue;]. *)
Definition free (bm wm : list bool) (j : nat) : bool :=
  negb (nth j bm false || nth j wm false).

(** Guess position [i] stops the scan at secret position [j]. *)
Definition takes (pegs hidden : list Z) (bm wm : list bool) (i j : nat)
  : bool :=
  free bm wm j && (nth i pegs 0 =? nth j hidden 0).

(** The values of the secret pegs still free among the positions [js]. *)
Definition avail (hidden : list Z) (bm wm : list bool) (js : list nat)
  : list Z :=
  map (λ j, nth j hidden 0) (List.filter (free bm wm) js).

(** The guess positions the outer loop of pass 2 does not skip. *)
Definition unmatched (bm : list bool) (ps : list nat) : list nat :=
  List.filter (λ i, negb (nth i bm false)) ps.

(** The source state [(wk, wm)] of pass 2 against the state [st] of the
    greedy rule. *)
Record sim (pegs hidden : list Z) (wk : Z) (wm : list bool)
    (st : Greedy.state) : Prop := {
  sim_keys : wk = Greedy.whiteKeys st;
  sim_count : wk = Z.of_nat (length (Greedy.matched st));
  sim_length : length wm = 4%nat;
  sim_consumed :
    Greedy.consumed st =
    Greedy.exact_matches pegs hidden ∪ list_to_set (Greedy.matched st).*2;
  sim_flags :
    ∀ j, j ∈ slots →
      (nth j wm false = true ↔ j ∈ (Greedy.matched st).*2);
  sim_once : NoDup (Greedy.matched st).*2;
  sim_pairs :
    ∀ i j, (i, j) ∈ Greedy.matched st →
      i ∈ slots ∧ j ∈ slots
      ∧ (i ∉ Greedy.exact_matches pegs hidden)
      ∧ (j ∉ Greedy.exact_matches pegs hidden)
      ∧ nth i pegs 0 = nth j hidden 0
}.

(** ** The scenarios of the specification *)

Example guess_all_black :
  fst (guess [1;2;3;4] (mkMastermind [1;2;3;4] 8 10)) = mkScore true 4 0.
Proof. reflexivity. Qed.

Example guess_all_white :
  fst (guess [4;3;2;1] (mkMastermind [1;2;3;4] 8 10)) = mkScore false 0 4.
Proof. reflexivity. Qed.

Example guess_mixed :
  fst (guess [1;2;1;2] (mkMastermind [1;1;2;2] 8 10)) = mkScore false 2 2.
Proof. reflexivity. Qed.

(** ** Machine arithmetic *)

Lemma u32_small z : is_u32 z → u32 z = z.
Proof. intros H. apply Z.mod_small, H. Qed.

Lemma u32_incr_small z : 0 <= z → z + 1 < UINT32_MOD → u32 (z + 1) = z + 1.
Proof. intros H0 H1. apply u32_small. unfold is_u32. lia. Qed.

(** ** Arrays of four *)

Lemma length4 {A} (l : list A) :
  length l = 4%nat → ∃ a b c d, l = [a; b; c; d].
Proof.
  destruct l as [|a [|b [|c [|d [|e l]]]]]; try discriminate.
  intros _. by exists a, b, c, d.
Qed.

Lemma read_all (l : list Z) d :
  length l = 4%nat → map (λ i, nth i l d) slots = l.
Proof. intros (a & b & c & e & ->)%length4. reflexivity. Qed.

Lemma nth_elem_of (l : list Z) j : (j < length l)%nat → nth j l 0 ∈ l.
Proof. intros Hj. by apply list_elem_of_In, nth_In. Qed.

Lemma find_all_false {A} (f : A → bool) (l : list A) :
  (∀ x, x ∈ l → f x = false) → List.find f l = None.
Proof.
  induction l as [|x l IH]; intros Hf; [done|].
  simpl. rewrite (Hf x) by left. apply IH. intros y Hy. apply Hf. by right.
Qed.

Lemma elem_of_slots i : i ∈ slots ↔ (i < 4)%nat.
Proof.
  unfold slots. change (Z.to_nat PEG_SLOTS) with 4%nat.
  rewrite elem_of_seq. lia.
Qed.

Lemma NoDup_slots : NoDup slots.
Proof. apply NoDup_seq. Qed.

(** ** Pass 1 in closed form *)

Lemma find_black_closed pegs hidden :
  length pegs = 4%nat → length hidden = 4%nat →
  find_black pegs hidden = (exact_count pegs hidden, black_flags pegs hidden).
Proof.
  intros (a & b & c & d & ->)%length4 (e & f & g & h & ->)%length4.
  unfold find_black, exact_count, black_flags, slots, same_at, black_iter.
  simpl. destruct (a =? e), (b =? f), (c =? g), (d =? h); reflexivity.
Qed.

(** ** Sums over colour values *)

Lemma color_matches_sum colors G S :
  color_matches colors G S =
  sum_over (λ v, Z.min (occurrences v G) (occurrences v S)) colors.
Proof. reflexivity. Qed.

Lemma sum_over_ext f f' colors :
  (∀ v, v ∈ colors → f v = f' v) → sum_over f colors = sum_over f' colors.
Proof.
  unfold sum_over. induction colors as [|c colors IH]; intros Hf; simpl.
  - done.
  - rewrite (Hf c) by left. rewrite IH; [done|].
    intros v Hv. apply Hf. by right.
Qed.

Lemma sum_over_plus f h colors :
  sum_over (λ v, f v + h v) colors = sum_over f colors + sum_over h colors.
Proof.
  unfold sum_over. induction colors as [|c colors IH]; simpl; lia.
Qed.

Lemma sum_over_le f f' colors :
  (∀ v, v ∈ colors → f v <= f' v) → sum_over f colors <= sum_over f' colors.
Proof.
  unfold sum_over. induction colors as [|c colors IH]; intros Hle; simpl; [lia|].
  pose proof (Hle c ltac:(left)).
  assert (∀ v, v ∈ colors → f v <= f' v) as Hrest
    by (intros v Hv; apply Hle; by right).
  specialize (IH Hrest). lia.
Qed.

(** Two summands that differ by one at a single colour [g], and nowhere
    else, give sums that differ by one. *)
Lemma sum_over_bump f f' colors g :
  NoDup colors → g ∈ colors →
  (∀ v, v ∈ colors → v ≠ g → f v = f' v) →
  f g = f' g + 1 →
  sum_over f colors = sum_over f' colors + 1.
Proof.
  intros Hnd Hin Hoff Hat.
  induction Hnd as [|c colors Hc Hnd IH]; [by apply elem_of_nil in Hin|].
  change (f c + sum_over f colors = f' c + sum_over f' colors + 1).
  destruct (decide (c = g)) as [->|Hne].
  - rewrite Hat, (sum_over_ext f f' colors); [lia|].
    intros v Hv. apply Hoff; [by right|]. by intros ->.
  - rewrite (Hoff c) by (done || left).
    rewrite IH; [lia| |].
    + apply elem_of_cons in Hin as [->|Hin]; done.
    + intros v Hv. apply Hoff. by right.
Qed.

Lemma occurrences_nil v : occurrences v [] = 0.
Proof. reflexivity. Qed.

Lemma occurrences_cons v x l :
  occurrences v (x :: l) =
  occurrences v l + (if decide (v = x) then 1 else 0).
Proof.
  unfold occurrences. simpl.
  destruct (Z.eq_dec x v) as [->|Hne]; case_decide; try congruence; lia.
Qed.

Lemma occurrences_nonneg v l : 0 <= occurrences v l.
Proof. unfold occurrences. lia. Qed.

Lemma occurrences_submseteq v l k :
  l ⊆+ k → occurrences v l <= occurrences v k.
Proof.
  induction 1; rewrite ?occurrences_cons; try lia.
  pose proof (occurrences_nonneg v l2). case_decide; lia.
Qed.

Lemma occurrences_absent v l : v ∉ l → occurrences v l = 0.
Proof.
  intros Hv. unfold occurrences.
  rewrite (proj1 (count_occ_not_In Z.eq_dec l v)); [done|].
  by rewrite <- list_elem_of_In.
Qed.

Lemma occurrences_present v l : v ∈ l → 0 < occurrences v l.
Proof.
  intros Hv%list_elem_of_In. unfold occurrences.
  apply (count_occ_In Z.eq_dec) in Hv. lia.
Qed.

(** Summing the occurrence counts of a list over a duplicate-free list of
    colours that covers it gives its length. *)
Lemma sum_over_occurrences colors l :
  NoDup colors → (∀ v, v ∈ l → v ∈ colors) →
  sum_over (λ v, occurrences v l) colors = Z.of_nat (length l).
Proof.
  intros Hnd. induction l as [|x l IH]; intros Hsub.
  - clear. unfold sum_over. induction colors as [|c colors IHc]; simpl; [done|].
    by rewrite occurrences_nil, IHc.
  - rewrite (sum_over_bump _ (λ v, occurrences v l) colors x); try done.
    + rewrite IH; [simpl length; lia|]. intros v Hv. apply Hsub. by right.
    + apply Hsub. by left.
    + intros v _ Hne. rewrite occurrences_cons. by case_decide; [|lia].
    + rewrite occurrences_cons. by case_decide; [|].
Qed.

(** A guess peg [g] that finds a free secret peg adds one colour match. *)
Lemma color_matches_take colors g R A A' :
  NoDup colors → g ∈ colors →
  (∀ v, occurrences v A =
        occurrences v A' + (if decide (v = g) then 1 else 0)) →
  color_matches colors (g :: R) A = color_matches colors R A' + 1.
Proof.
  intros Hnd Hin HA. rewrite !color_matches_sum.
  apply sum_over_bump with g; try done.
  - intros v _ Hne. rewrite occurrences_cons, HA.
    repeat case_decide; try done. by rewrite !Z.add_0_r.
  - rewrite occurrences_cons, HA. case_decide; [|done].
    pose proof (occurrences_nonneg g R). pose proof (occurrences_nonneg g A').
    lia.
Qed.

(** A guess peg [g] with no free secret peg of its colour adds none. *)
Lemma color_matches_miss colors g R A :
  occurrences g A = 0 →
  color_matches colors (g :: R) A = color_matches colors R A.
Proof.
  intros H0. rewrite !color_matches_sum. apply sum_over_ext.
  intros v _. rewrite occurrences_cons. case_decide as Hv; [|by rewrite Z.add_0_r].
  subst v. rewrite H0. pose proof (occurrences_nonneg g R). lia.
Qed.

Lemma color_matches_nil colors S : color_matches colors [] S = 0.
Proof.
  unfold color_matches. induction colors as [|c colors IH]; simpl; [done|].
  rewrite IH, occurrences_nil. pose proof (occurrences_nonneg c S). lia.
Qed.

Lemma color_matches_comm colors G S :
  color_matches colors G S = color_matches colors S G.
Proof.
  rewrite !color_matches_sum. apply sum_over_ext. intros v _. apply Z.min_comm.
Qed.

Lemma color_matches_le colors G S :
  NoDup colors → (∀ v, v ∈ G → v ∈ colors) →
  0 <= color_matches colors G S <= Z.of_nat (length G).
Proof.
  intros Hnd Hsub. rewrite <- (sum_over_occurrences colors G) by done.
  rewrite color_matches_sum. clear Hnd Hsub. unfold sum_over.
  induction colors as [|c colors IH]; simpl; [lia|].
  pose proof (occurrences_nonneg c G). pose proof (occurrences_nonneg c S). lia.
Qed.

(** ** Pass 2: the inner scan and the secret pegs still free *)

Section WhitePass.
Variables (pegs hidden : list Z) (bm : list bool).

Lemma white_scan_find i js wk wm :
  white_scan pegs hidden bm i js (wk, wm) =
  match List.find (takes pegs hidden bm wm i) js with
  | Some j => (u32 (wk + 1), <[j:=true]> wm)
  | None => (wk, wm)
  end.
Proof.
  induction js as [|j js IH]; simpl; [done|].
  unfold takes at 1, free at 1.
  destruct (nth j bm false || nth j wm false); simpl; [done|].
  by destruct (nth i pegs 0 =? nth j hidden 0).
Qed.

Lemma nth_mark (wm : list bool) j k :
  nth k (<[j:=true]> wm) false =
  if decide (j = k ∧ (j < length wm)%nat) then true else nth k wm false.
Proof. rewrite !nth_lookup, list_lookup_insert. by case_decide. Qed.

Lemma free_mark_ne wm j k : j ≠ k → free bm (<[j:=true]> wm) k = free bm wm k.
Proof.
  intros Hne. unfold free. rewrite nth_mark.
  case_decide as H; [by destruct H|done].
Qed.

Lemma free_mark_eq wm j :
  (j < length wm)%nat → free bm (<[j:=true]> wm) j = false.
Proof.
  intros Hlt. unfold free. rewrite nth_mark.
  case_decide as H; [by rewrite orb_true_r|]. destruct H. done.
Qed.

Lemma avail_mark_absent wm j js :
  j ∉ js → avail hidden bm (<[j:=true]> wm) js = avail hidden bm wm js.
Proof.
  unfold avail. induction js as [|k js IH]; intros Hj; simpl; [done|].
  apply not_elem_of_cons in Hj as [Hne Hj].
  rewrite free_mark_ne by done. specialize (IH Hj).
  destruct (free bm wm k); simpl; congruence.
Qed.

Lemma find_takes_Some wm i js j :
  List.find (takes pegs hidden bm wm i) js = Some j →
  j ∈ js ∧ free bm wm j = true ∧ nth i pegs 0 = nth j hidden 0.
Proof.
  intros [Hin Ht]%find_some. apply list_elem_of_In in Hin.
  unfold takes in Ht. apply andb_true_iff in Ht as [Hf He].
  by apply Z.eqb_eq in He.
Qed.

(** Marking the position found removes one occurrence of the guessed
    colour from the free secret pegs and leaves the other colours alone. *)
Lemma avail_mark wm i js j v :
  NoDup js → (∀ k, k ∈ js → (k < length wm)%nat) →
  List.find (takes pegs hidden bm wm i) js = Some j →
  occurrences v (avail hidden bm wm js) =
  occurrences v (avail hidden bm (<[j:=true]> wm) js)
    + (if decide (v = nth i pegs 0) then 1 else 0).
Proof.
  induction js as [|k js IH]; intros Hnd Hlen Hfind; [done|].
  apply NoDup_cons in Hnd as [Hk Hnd]. simpl in Hfind.
  destruct (takes pegs hidden bm wm i k) eqn:Ht.
  - injection Hfind as ->.
    apply andb_true_iff in Ht as [Hf He]. apply Z.eqb_eq in He.
    unfold avail at 1 2. simpl.
    rewrite Hf, free_mark_eq by (apply Hlen; left). simpl.
    fold (avail hidden bm wm js). fold (avail hidden bm (<[j:=true]> wm) js).
    rewrite avail_mark_absent by done.
    rewrite occurrences_cons, <- He. done.
  - assert (j ≠ k) as Hne.
    { intros ->. apply find_takes_Some in Hfind as [Hin _]. done. }
    unfold avail at 1 2. simpl. rewrite free_mark_ne by done.
    fold (avail hidden bm wm js). fold (avail hidden bm (<[j:=true]> wm) js).
    assert (Hrec := IH Hnd (λ k' Hk', Hlen k' (list_elem_of_further _ _ _ Hk')) Hfind).
    destruct (free bm wm k) eqn:Hf; simpl; [|done].
    fold (avail hidden bm wm js). fold (avail hidden bm (<[j:=true]> wm) js).
    rewrite !occurrences_cons, Hrec. lia.
Qed.

Lemma avail_none wm i js :
  List.find (takes pegs hidden bm wm i) js = None →
  occurrences (nth i pegs 0) (avail hidden bm wm js) = 0.
Proof.
  intros Hfind. apply occurrences_absent. unfold avail.
  intros (j & He & Hj)%list_elem_of_fmap.
  apply list_elem_of_In, filter_In in Hj as [Hj Hf].
  pose proof (find_none _ _ Hfind j Hj) as Ht.
  unfold takes in Ht. rewrite Hf, He, Z.eqb_refl in Ht. done.
Qed.

Lemma white_fold_unmatched ps st :
  fold_left (white_iter pegs hidden bm) ps st =
  fold_left (λ st i, white_scan pegs hidden bm i slots st)
            (unmatched bm ps) st.
Proof.
  revert st. unfold unmatched.
  induction ps as [|i ps IH]; intros st; [done|].
  cbn [fold_left List.filter]. unfold white_iter at 2.
  destruct (nth i bm false); cbn [negb fold_left]; apply IH.
Qed.

(** The white keys added by the outer loop over the positions [ps] are
    the colour matches between the unmatched guess pegs among [ps] and
    the free secret pegs. *)
Lemma white_fold_count colors ps wk wm :
  NoDup colors →
  (∀ i, i ∈ unmatched bm ps → nth i pegs 0 ∈ colors) →
  length wm = 4%nat →
  0 <= wk → wk + Z.of_nat (length ps) < UINT32_MOD →
  (fold_left (white_iter pegs hidden bm) ps (wk, wm)).1 =
  wk + color_matches colors (map (λ i, nth i pegs 0) (unmatched bm ps))
                     (avail hidden bm wm slots).
Proof.
  intros Hnd. revert wk wm.
  induction ps as [|i ps IH]; intros wk wm Hcol Hlen Hwk Hbound.
  - cbn [fold_left unmatched List.filter map fst].
    rewrite color_matches_nil. lia.
  - simpl fold_left. simpl length in Hbound.
    unfold unmatched in *. simpl List.filter in *.
    unfold white_iter at 2.
    destruct (nth i bm false) eqn:Hb; simpl negb in *; cbv iota in *.
    { apply IH; try done. lia. }
    rewrite white_scan_find.
    destruct (List.find (takes pegs hidden bm wm i) slots) as [j|] eqn:Hfind.
    + rewrite IH; try lia.
      * rewrite u32_incr_small by lia. simpl map.
        rewrite (color_matches_take colors _ _ _ (avail hidden bm (<[j:=true]> wm) slots));
          [lia|done| |].
        -- apply Hcol. left.
        -- intros v. apply avail_mark; [apply NoDup_slots| |done].
           intros k Hk%elem_of_slots. lia.
      * intros k Hk. apply Hcol. by right.
      * by rewrite length_insert.
      * rewrite u32_incr_small by lia. lia.
      * rewrite u32_incr_small by lia. lia.
    + rewrite IH; try done; try lia.
      * simpl map. rewrite color_matches_miss; [done|]. by apply avail_none.
      * intros k Hk. apply Hcol. by right.
Qed.

End WhitePass.

(** ** Pass 1 and the colour matches *)

Section Split.
Variables (G S : nat → Z) (b : nat → bool).
Hypothesis Hb : ∀ i, b i = true → G i = S i.

Lemma same_at_values ps :
  map G (List.filter b ps) = map S (List.filter b ps).
Proof.
  induction ps as [|i ps IH]; simpl; [done|].
  destruct (b i) eqn:Hbi; simpl; [|done].
  by rewrite IH, (Hb i).
Qed.

Lemma occurrences_split (f : nat → Z) v ps :
  occurrences v (map f ps) =
  occurrences v (map f (List.filter (λ i, negb (b i)) ps))
    + occurrences v (map f (List.filter b ps)).
Proof.
  induction ps as [|i ps IH]; simpl; [done|].
  destruct (b i); simpl; rewrite !occurrences_cons; lia.
Qed.

(** Taking the exact matches out of both sequences lowers the number of
    colour matches by the number of exact matches. *)
Lemma color_matches_split colors ps :
  NoDup colors → (∀ i, i ∈ ps → G i ∈ colors) →
  color_matches colors (map G ps) (map S ps) =
  color_matches colors (map G (List.filter (λ i, negb (b i)) ps))
                       (map S (List.filter (λ i, negb (b i)) ps))
    + Z.of_nat (length (List.filter b ps)).
Proof.
  intros Hnd Hcol.
  rewrite <- (length_map G), <- (sum_over_occurrences colors) by
    (try done; intros v (i & -> & [Hi _]%list_elem_of_In%filter_In)%list_elem_of_fmap;
     by apply Hcol, list_elem_of_In).
  rewrite !color_matches_sum, <- sum_over_plus. apply sum_over_ext.
  intros v _. rewrite (occurrences_split G), (occurrences_split S).
  rewrite <- same_at_values. lia.
Qed.

End Split.

Section BlackPass.
Variables (pegs hidden : list Z).

Lemma black_flag i :
  i ∈ slots → nth i (black_flags pegs hidden) false = same_at pegs hidden i.
Proof.
  intros Hi%elem_of_slots. unfold black_flags.
  destruct i as [|[|[|[|i]]]]; try reflexivity. lia.
Qed.

Lemma unmatched_closed :
  unmatched (black_flags pegs hidden) slots =
  List.filter (λ i, negb (same_at pegs hidden i)) slots.
Proof.
  unfold unmatched. apply filter_ext_in.
  intros i Hi%list_elem_of_In. by rewrite black_flag.
Qed.

Lemma avail_closed :
  avail hidden (black_flags pegs hidden) (replicate 4 false) slots =
  map (λ j, nth j hidden 0)
      (List.filter (λ i, negb (same_at pegs hidden i)) slots).
Proof.
  unfold avail. f_equal. apply filter_ext_in.
  intros i Hi%list_elem_of_In. unfold free. rewrite black_flag by done.
  apply elem_of_slots in Hi.
  destruct i as [|[|[|[|i]]]]; simpl; try (by rewrite orb_false_r). lia.
Qed.

Hypothesis Hpegs : length pegs = 4%nat.
Hypothesis Hhidden : length hidden = 4%nat.

(** The white keys are the colour matches that are not exact matches. *)
Lemma find_white_closed colors :
  NoDup colors → (∀ v, v ∈ pegs → v ∈ colors) →
  (find_white pegs hidden (black_flags pegs hidden)).1 =
  color_matches colors pegs hidden - exact_count pegs hidden.
Proof.
  intros Hnd Hcol.
  assert (∀ i, i ∈ slots → nth i pegs 0 ∈ colors) as HcolG.
  { intros i Hi%elem_of_slots. apply Hcol, nth_elem_of. lia. }
  unfold find_white. change (Z.to_nat PEG_SLOTS) with 4%nat.
  rewrite (white_fold_count pegs hidden _ colors); try done.
  - rewrite unmatched_closed, avail_closed.
    replace (color_matches colors pegs hidden)
      with (color_matches colors (map (λ i, nth i pegs 0) slots)
                                 (map (λ j, nth j hidden 0) slots))
      by (by rewrite !read_all).
    rewrite (color_matches_split _ _ (same_at pegs hidden)) with (ps := slots);
      try done.
    + unfold exact_count. lia.
    + intros i Hi. by apply Z.eqb_eq.
  - intros i Hi. apply HcolG. unfold unmatched in Hi.
    by apply list_elem_of_In, filter_In in Hi as [Hi%list_elem_of_In _].
Qed.

Lemma guess_closed self :
  m_hidden_pegs self = hidden →
  guess pegs self =
  ({| win := exact_count pegs hidden =? PEG_SLOTS;
      black_keys := exact_count pegs hidden;
      white_keys := (find_white pegs hidden (black_flags pegs hidden)).1 |},
   {| m_hidden_pegs := hidden;
      m_peg_colors := m_peg_colors self;
      m_tries_allowed := u32 (m_tries_allowed self - 1) |}).
Proof.
  intros Hh. unfold guess. simpl m_hidden_pegs. rewrite Hh.
  rewrite find_black_closed by done.
  destruct (find_white pegs hidden _) as [wk wm]. cbn [fst].
  by destruct (_ =? PEG_SLOTS).
Qed.

End BlackPass.

(** ** The source against the greedy rule of the specification *)

Lemma filter_bool_prop {A} (f : A → bool) (P : A → Prop)
    `{!∀ x, Decision (P x)} (l : list A) :
  (∀ x, x ∈ l → f x = true ↔ P x) → List.filter f l = filter P l.
Proof.
  induction l as [|x l IH]; intros Hf; [done|].
  simpl. rewrite filter_cons.
  rewrite IH by (intros y Hy; apply Hf; by right).
  destruct (f x) eqn:Hx; case_decide as HP; try done.
  - apply Hf in Hx; [done|left].
  - apply Hf in HP; [congruence|left].
Qed.

Lemma find_filter {A} (f : A → bool) (P : A → Prop)
    `{!∀ x, Decision (P x)} (l : list A) :
  List.find f (filter P l) = List.find (λ x, bool_decide (P x) && f x) l.
Proof.
  induction l as [|x l IH]; [done|].
  rewrite filter_cons. simpl. case_decide as HP.
  - rewrite bool_decide_eq_true_2 by done. simpl. by rewrite IH.
  - by rewrite bool_decide_eq_false_2.
Qed.

Lemma find_ext_on {A} (f g : A → bool) (l : list A) :
  (∀ x, x ∈ l → f x = g x) → List.find f l = List.find g l.
Proof.
  induction l as [|x l IH]; intros Hfg; [done|].
  simpl. rewrite <- (Hfg x) by left.
  rewrite IH; [done|]. intros y Hy. apply Hfg. by right.
Qed.

Section Simulation.
Variables (pegs hidden : list Z).
Hypothesis Hpegs : length pegs = 4%nat.
Hypothesis Hhidden : length hidden = 4%nat.

Lemma black_flag_set j : j ∈ slots → nth j (black_flags pegs hidden) false = true ↔ j ∈ (Greedy.exact_matches pegs hidden).
Proof.
  intros Hj. rewrite (black_flag pegs hidden) by done.
  unfold Greedy.exact_matches. rewrite elem_of_list_to_set, list_elem_of_filter.
  unfold same_at. rewrite Z.eqb_eq. tauto.
Qed.

Lemma unmatched_set :
  unmatched (black_flags pegs hidden) slots = filter (λ i, i ∉ (Greedy.exact_matches pegs hidden)) slots.
Proof.
  unfold unmatched. apply filter_bool_prop. intros i Hi.
  rewrite negb_true_iff, <- not_true_iff_false. by rewrite black_flag_set.
Qed.

Lemma sim_free wk wm st j :
  sim pegs hidden wk wm st → j ∈ slots →
  free (black_flags pegs hidden) wm j = bool_decide (j ∉ Greedy.consumed st).
Proof.
  intros Hsim Hj. apply eq_true_iff_eq.
  rewrite bool_decide_eq_true, (sim_consumed _ _ _ _ _ Hsim).
  unfold free. rewrite negb_true_iff, orb_false_iff.
  rewrite <- !not_true_iff_false, black_flag_set by done.
  rewrite (sim_flags _ _ _ _ _ Hsim) by done.
  rewrite elem_of_union, elem_of_list_to_set. tauto.
Qed.

(** The inner scan of the source finds the position the greedy rule
    names. *)
Lemma sim_find wk wm st i :
  sim pegs hidden wk wm st →
  List.find (takes pegs hidden (black_flags pegs hidden) wm i) slots =
  Greedy.first_match pegs hidden (Greedy.consumed st) i.
Proof.
  intros Hsim. unfold Greedy.first_match. rewrite find_filter.
  apply find_ext_on. intros j Hj. unfold takes.
  by rewrite (sim_free wk wm st).
Qed.

Lemma sim_step wk wm st i :
  sim pegs hidden wk wm st → i ∈ slots → i ∉ (Greedy.exact_matches pegs hidden) →
  0 <= wk → wk + 1 < UINT32_MOD →
  let r := white_scan pegs hidden (black_flags pegs hidden) i slots (wk, wm) in
  let st' := Greedy.step pegs hidden st i in
  sim pegs hidden r.1 r.2 st'
  ∧ (Greedy.matched st' = Greedy.matched st
     ∨ ∃ j, Greedy.matched st' = Greedy.matched st ++ [(i, j)])
  ∧ wk <= r.1 <= wk + 1.
Proof.
  intros Hsim Hi Hib Hwk Hbound. cbv zeta.
  rewrite white_scan_find. unfold Greedy.step.
  rewrite <- (sim_find wk wm st i) by done.
  destruct (List.find _ slots) as [j|] eqn:Hfind; simpl;
    [|split; [done|split; [by left|lia]]].
  apply find_takes_Some in Hfind as (Hj & Hfree & Heq).
  unfold free in Hfree.
  apply negb_true_iff, orb_false_iff in Hfree as [Hbj Hwj].
  assert (j ∉ (Greedy.exact_matches pegs hidden)) as Hjb.
  { rewrite <- black_flag_set by done. by rewrite Hbj. }
  assert (j ∉ (Greedy.matched st).*2) as Hjm.
  { rewrite <- (sim_flags _ _ _ _ _ Hsim) by done. by rewrite Hwj. }
  rewrite u32_incr_small by lia.
  split; [|split; [right; by exists j|lia]].
  destruct Hsim as [Hk Hc Hl Hcons Hfl Hnd Hp].
  split; simpl.
  - lia.
  - rewrite length_app. simpl. lia.
  - by rewrite length_insert.
  - rewrite Hcons, fmap_app, list_to_set_app_L. apply set_eq. intros x.
    cbn [fmap list_fmap snd list_to_set foldr].
    rewrite !elem_of_union, elem_of_singleton, elem_of_empty. tauto.
  - intros k Hk'. rewrite nth_mark, fmap_app, elem_of_app. simpl.
    rewrite list_elem_of_singleton. case_decide as Hd.
    + destruct Hd as [-> _]. by split; [right|].
    + rewrite Hfl by done. split; [by left|]. intros [?| ->]; [done|].
      destruct Hd. split; [done|]. apply elem_of_slots in Hj. lia.
  - rewrite fmap_app. simpl. apply NoDup_app. split; [done|].
    split; [|apply NoDup_singleton].
    intros k Hk' ->%list_elem_of_singleton. done.
  - intros i' j' [Hin|Hin%list_elem_of_singleton]%elem_of_app.
    + by apply Hp.
    + injection Hin as -> ->. done.
Qed.

Lemma sim_fold ps wk wm st :
  sim pegs hidden wk wm st → NoDup ps →
  (∀ i, i ∈ ps → i ∈ slots ∧ i ∉ (Greedy.exact_matches pegs hidden)) →
  NoDup (Greedy.matched st).*1 →
  (∀ i, i ∈ (Greedy.matched st).*1 → i ∉ ps) →
  0 <= wk → wk + Z.of_nat (length ps) < UINT32_MOD →
  let r := fold_left (λ st i, white_scan pegs hidden (black_flags pegs hidden) i slots st)
                     ps (wk, wm) in
  let st' := fold_left (Greedy.step pegs hidden) ps st in
  sim pegs hidden r.1 r.2 st' ∧ NoDup (Greedy.matched st').*1.
Proof.
  revert wk wm st.
  induction ps as [|i ps IH]; intros wk wm st Hsim Hnd Hps Hm1 Hfresh Hwk Hb;
    [done|].
  apply NoDup_cons in Hnd as [Hi Hnd]. simpl length in Hb.
  destruct (Hps i) as [His Hib]; [left|].
  destruct (sim_step wk wm st i Hsim His Hib) as (Hsim' & Hm & Hr);
    [lia..|].
  cbv zeta in Hsim', Hr |- *. cbn [fold_left].
  destruct (white_scan pegs hidden (black_flags pegs hidden) i slots (wk, wm)) as [wk' wm'].
  cbn [fst snd] in Hsim', Hr.
  apply IH; try done; try lia.
  - intros k Hk. apply Hps. by right.
  - destruct Hm as [->|[j ->]]; [done|].
    rewrite fmap_app. simpl. apply NoDup_app. split; [done|].
    split; [|apply NoDup_singleton].
    intros k Hk ->%list_elem_of_singleton. apply (Hfresh _ Hk). left.
  - intros k Hk. destruct Hm as [Hm|[j Hm]]; rewrite Hm in Hk.
    + apply Hfresh in Hk. by apply not_elem_of_cons in Hk as [_ ?].
    + rewrite fmap_app in Hk. simpl in Hk.
      apply elem_of_app in Hk as [Hk| ->%list_elem_of_singleton]; [|done].
      apply Hfresh in Hk. by apply not_elem_of_cons in Hk as [_ ?].
Qed.

Lemma not_black_iff i :
  i ∈ slots → i ∉ (Greedy.exact_matches pegs hidden) ↔ nth i pegs 0 ≠ nth i hidden 0.
Proof.
  intros Hi. unfold Greedy.exact_matches.
  rewrite elem_of_list_to_set, list_elem_of_filter. tauto.
Qed.

(** The white keys are the colour matches between the guess pegs and the
    secret pegs at the positions without an exact match. *)
Lemma find_white_unmatched colors :
  NoDup colors → (∀ v, v ∈ pegs → v ∈ colors) →
  (find_white pegs hidden (black_flags pegs hidden)).1 =
  color_matches colors
    (map (λ i, nth i pegs 0) (filter (λ i, i ∉ (Greedy.exact_matches pegs hidden)) slots))
    (map (λ i, nth i hidden 0) (filter (λ i, i ∉ (Greedy.exact_matches pegs hidden)) slots)).
Proof.
  intros Hnd Hcol. unfold find_white.
  change (Z.to_nat PEG_SLOTS) with 4%nat.
  rewrite (white_fold_count pegs hidden (black_flags pegs hidden) colors); try done.
  - rewrite (avail_closed pegs hidden) by done.
    rewrite <- (unmatched_closed pegs hidden) by done.
    rewrite unmatched_set. lia.
  - intros i [Hi _]%list_elem_of_In%filter_In. apply Hcol, nth_elem_of.
    apply list_elem_of_In, elem_of_slots in Hi. lia.
Qed.

(** No colour-only matching has more pairs than the source counts white
    keys. *)
Lemma matching_bound colors M :
  NoDup colors → (∀ v, v ∈ pegs → v ∈ colors) →
  color_only_matching pegs hidden M →
  Z.of_nat (length M) <= (find_white pegs hidden (black_flags pegs hidden)).1.
Proof.
  intros Hnd Hcol (HM1 & HM2 & HM).
  rewrite (find_white_unmatched colors) by done.
  set (U := filter (λ i, i ∉ (Greedy.exact_matches pegs hidden)) slots).
  assert (∀ i j, (i, j) ∈ M → i ∈ U ∧ j ∈ U) as HU.
  { intros i j (Hi & Hj & Hbi & Hbj & _)%HM. unfold U.
    rewrite !list_elem_of_filter, !elem_of_slots.
    rewrite !not_black_iff by (by apply elem_of_slots). done. }
  assert (M.*1 ⊆+ U) as Hsub1.
  { apply NoDup_submseteq; [done|].
    intros i ([i' j] & -> & Hij)%list_elem_of_fmap. by apply (HU i' j). }
  assert (M.*2 ⊆+ U) as Hsub2.
  { apply NoDup_submseteq; [done|].
    intros j ([i j'] & -> & Hij)%list_elem_of_fmap. by apply (HU i j'). }
  assert (map (λ i, nth i pegs 0) M.*1 = map (λ j, nth j hidden 0) M.*2)
    as Hval.
  { clear HM1 HM2 HU Hsub1 Hsub2.
    induction M as [|[i j] M IH]; [done|]. simpl. f_equal.
    - apply (HM i j). left.
    - apply IH. intros i' j' Hij. apply HM. by right. }
  rewrite <- (length_fmap fst), <- (length_map (λ i, nth i pegs 0)).
  rewrite <- (sum_over_occurrences colors) by
    (try done; intros v (i & -> & Hi)%list_elem_of_fmap;
     apply Hcol, nth_elem_of;
     apply list_elem_of_fmap in Hi as ([i' j'] & -> & Hij);
     apply HM in Hij; simpl; lia).
  rewrite color_matches_sum. apply sum_over_le. intros v _.
  apply Z.min_glb.
  - apply occurrences_submseteq. by apply (fmap_submseteq _ M.*1 U).
  - rewrite Hval. apply occurrences_submseteq.
    by apply (fmap_submseteq _ M.*2 U).
Qed.

(** Pass 2 of the source and the greedy rule end in related states. *)
Lemma find_white_greedy :
  let r := find_white pegs hidden (black_flags pegs hidden) in
  let st := Greedy.pass2 pegs hidden in
  sim pegs hidden r.1 r.2 st ∧ NoDup (Greedy.matched st).*1.
Proof.
  unfold find_white, Greedy.pass2.
  rewrite white_fold_unmatched, unmatched_set.
  apply sim_fold; simpl; try done.
  - split; simpl; try done.
    + symmetry. apply (right_id_L ∅ (∪)).
    + intros j Hj. apply elem_of_slots in Hj. rewrite elem_of_nil.
      destruct j as [|[|[|[|j]]]]; simpl; try (split; [discriminate|done]).
      lia.
    + constructor.
    + intros i j []%elem_of_nil.
  - apply NoDup_filter, NoDup_slots.
  - intros i [Hi Hs]%list_elem_of_filter. done.
  - constructor.
  - intros i []%elem_of_nil.
  - pose proof (length_filter (λ i, i ∉ (Greedy.exact_matches pegs hidden)) slots) as Hle.
    change (length slots) with 4%nat in Hle.
    unfold UINT32_MOD. change (2 ^ 32) with 4294967296. lia.
Qed.

(** The pairs the greedy rule matched form a colour-only matching with
    as many pairs as the source counts white keys. *)
Lemma greedy_matching :
  color_only_matching pegs hidden (Greedy.matched (Greedy.pass2 pegs hidden))
  ∧ Z.of_nat (length (Greedy.matched (Greedy.pass2 pegs hidden)))
    = (find_white pegs hidden (black_flags pegs hidden)).1.
Proof.
  destruct find_white_greedy as [Hsim Hnd1]. cbv zeta in Hsim, Hnd1.
  destruct Hsim as [_ Hc _ _ _ Hnd2 Hpairs].
  split; [|done]. split; [done|]. split; [done|].
  intros i j (Hi & Hj & Hbi & Hbj & Heq)%Hpairs.
  rewrite <- !elem_of_slots, <- !not_black_iff by done. done.
Qed.

End Simulation.

(** ** The score in closed form *)

Lemma guess_score pegs self colors :
  length pegs = 4%nat → length (m_hidden_pegs self) = 4%nat →
  NoDup colors → (∀ v, v ∈ pegs → v ∈ colors) →
  (guess pegs self).1 =
  {| win := exact_count pegs (m_hidden_pegs self) =? PEG_SLOTS;
     black_keys := exact_count pegs (m_hidden_pegs self);
     white_keys := color_matches colors pegs (m_hidden_pegs self)
                   - exact_count pegs (m_hidden_pegs self) |}.
Proof.
  intros Hp Hh Hnd Hcol.
  rewrite (guess_closed pegs (m_hidden_pegs self)) by done.
  cbn [fst]. by rewrite (find_white_closed _ _ Hp Hh colors).
Qed.

(** The colour values summed over may cover the secret instead of the
    guess: a colour missing from either sequence adds nothing to the sum. *)
Lemma find_white_closed_secret pegs hidden colors :
  length pegs = 4%nat → length hidden = 4%nat →
  NoDup colors → (∀ v, v ∈ hidden → v ∈ colors) →
  (find_white pegs hidden (black_flags pegs hidden)).1 =
  color_matches colors pegs hidden - exact_count pegs hidden.
Proof.
  intros Hp Hh Hnd Hcol.
  assert (NoDup (remove_dups (pegs ++ hidden))) as Hnd' by apply NoDup_remove_dups.
  assert (∀ v, v ∈ pegs → v ∈ remove_dups (pegs ++ hidden)) as Hcp.
  { intros v Hv. rewrite elem_of_remove_dups, elem_of_app. by left. }
  assert (∀ v, v ∈ hidden → v ∈ remove_dups (pegs ++ hidden)) as Hch.
  { intros v Hv. rewrite elem_of_remove_dups, elem_of_app. by right. }
  rewrite (find_white_closed pegs hidden Hp Hh _ Hnd' Hcp).
  pose proof (find_white_closed hidden pegs Hh Hp _ Hnd' Hch) as H1.
  rewrite (find_white_closed hidden pegs Hh Hp _ Hnd Hcol) in H1.
  rewrite (color_matches_comm colors pegs hidden).
  rewrite (color_matches_comm _ pegs hidden). lia.
Qed.

Lemma guess_score_either pegs self colors :
  length pegs = 4%nat → length (m_hidden_pegs self) = 4%nat →
  NoDup colors →
  (∀ v, v ∈ pegs → v ∈ colors) ∨ (∀ v, v ∈ m_hidden_pegs self → v ∈ colors) →
  white_keys (guess pegs self).1 =
  color_matches colors pegs (m_hidden_pegs self) - black_keys (guess pegs self).1.
Proof.
  intros Hp Hh Hnd Hcol.
  rewrite (guess_closed pegs (m_hidden_pegs self)) by done.
  cbn [fst white_keys black_keys]. destruct Hcol as [Hcol|Hcol].
  - by apply find_white_closed.
  - by apply find_white_closed_secret.
Qed.

Lemma guess_state pegs self :
  (guess pegs self).2 =
  {| m_hidden_pegs := m_hidden_pegs self;
     m_peg_colors := m_peg_colors self;
     m_tries_allowed := u32 (m_tries_allowed self - 1) |}.
Proof.
  unfold guess. cbn [m_hidden_pegs].
  destruct (find_black _ _) as [bk bm]. by destruct (find_white _ _ _).
Qed.

Lemma exact_count_sym A B : exact_count A B = exact_count B A.
Proof.
  unfold exact_count. do 2 f_equal. apply filter_ext.
  intros i. unfold same_at. apply Z.eqb_sym.
Qed.

Lemma exact_count_range A B : 0 <= exact_count A B <= 4.
Proof.
  unfold exact_count.
  pose proof (filter_length_le (same_at A B) slots) as Hle.
  change (length slots) with 4%nat in Hle. lia.
Qed.

Lemma exact_count_full A B :
  length A = 4%nat → length B = 4%nat →
  exact_count A B = 4 ↔ ∀ i, (i < 4)%nat → nth i A 0 = nth i B 0.
Proof.
  intros (a & b & c & d & ->)%length4 (e & f & g & h & ->)%length4.
  unfold exact_count, slots, same_at. simpl.
  split.
  - intros Hall.
    destruct (Z.eqb_spec a e), (Z.eqb_spec b f), (Z.eqb_spec c g),
      (Z.eqb_spec d h); simpl in Hall; try discriminate Hall.
    intros [|[|[|[|i]]]] Hi; simpl; try done; lia.
  - intros Hall.
    pose proof (Hall 0%nat) as H0. pose proof (Hall 1%nat) as H1.
    pose proof (Hall 2%nat) as H2. pose proof (Hall 3%nat) as H3.
    simpl in H0, H1, H2, H3.
    rewrite H0, H1, H2, H3, !Z.eqb_refl by lia. reflexivity.
Qed.

Lemma elementwise_eq (A B : list Z) :
  length A = 4%nat → length B = 4%nat →
  (∀ i, (i < 4)%nat → nth i A 0 = nth i B 0) ↔ A = B.
Proof.
  intros HA HB. split; [|by intros ->].
  intros Hall. rewrite <- (read_all A 0 HA), <- (read_all B 0 HB).
  apply map_ext_in. intros i Hi%list_elem_of_In%elem_of_slots. by apply Hall.
Qed.

(** A guess colour that the secret does not hold takes one colour match
    away from the most a guess can have. *)
Lemma color_matches_absent colors G S g :
  NoDup colors → (∀ v, v ∈ G → v ∈ colors) → g ∈ G → g ∉ S →
  color_matches colors G S <= Z.of_nat (length G) - 1.
Proof.
  intros Hnd Hcol HgG HgS.
  rewrite <- (sum_over_occurrences colors G) by done.
  rewrite (sum_over_bump (λ v, occurrences v G)
             (λ v, occurrences v G - (if decide (v = g) then 1 else 0))
             colors g); try done.
  - rewrite color_matches_sum.
    pose proof (sum_over_le
      (λ v, Z.min (occurrences v G) (occurrences v S))
      (λ v, occurrences v G - (if decide (v = g) then 1 else 0)) colors) as Hle.
    cut (∀ v, v ∈ colors →
           Z.min (occurrences v G) (occurrences v S)
           <= occurrences v G - (if decide (v = g) then 1 else 0)).
    { intros H. specialize (Hle H). lia. }
    intros v _. case_decide as Hv; [|lia]. subst v.
    rewrite (occurrences_absent g S) by done.
    pose proof (occurrences_present g G HgG). lia.
  - by apply Hcol.
  - intros v _ Hne. case_decide; [done|lia].
  - case_decide; [lia|done].
Qed.


Lemma white_keys_nonneg pegs self :
  length pegs = 4%nat → length (m_hidden_pegs self) = 4%nat →
  0 <= white_keys (guess pegs self).1.
Proof.
  intros Hp Hh.
  rewrite (guess_closed pegs (m_hidden_pegs self)) by done.
  cbn [fst white_keys].
  pose proof (find_white_greedy pegs (m_hidden_pegs self) Hp Hh) as [Hsim _].
  cbv zeta in Hsim. apply sim_count in Hsim. lia.
Qed.

Lemma perform_frame self c :
  m_hidden_pegs (perform self c) = m_hidden_pegs self
  ∧ m_peg_colors (perform self c) = m_peg_colors self.
Proof. destruct c; simpl; [by rewrite guess_state|done..]. Qed.

Lemma run_frame calls self :
  m_hidden_pegs (run calls self) = m_hidden_pegs self
  ∧ m_peg_colors (run calls self) = m_peg_colors self.
Proof.
  unfold run. revert self.
  induction calls as [|c calls IH]; intros self; [done|].
  cbn [fold_left]. destruct (IH (perform self c)) as [-> ->].
  apply perform_frame.
Qed.

Lemma peer_copies out self :
  length out = 4%nat → length (m_hidden_pegs self) = 4%nat →
  (peer out self).1 = m_hidden_pegs self.
Proof.
  intros (a & b & c & d & ->)%length4. destruct self as [hidden cs ts].
  cbn [m_hidden_pegs]. intros (e & f & g & h & ->)%length4. reflexivity.
Qed.

(** * The claims *)

(** C1.  For a secret and a guess of length 4, [guess] returns true exactly
    when it reports four black keys, and it reports four black keys exactly
    when the guess equals the secret at every position (which, for two
    sequences of length 4, is equality of the sequences). *)
Theorem guess_wins_iff_equal (pegs : list Z) (self : Mastermind) :
  length pegs = 4%nat → length (m_hidden_pegs self) = 4%nat →
  let sc := (guess pegs self).1 in
  (win sc = true ↔ black_keys sc = 4)
  ∧ (black_keys sc = 4 ↔
     ∀ i, (i < 4)%nat → nth i pegs 0 = nth i (m_hidden_pegs self) 0)
  ∧ (black_keys sc = 4 ↔ pegs = m_hidden_pegs self).
Proof.
  intros Hp Hh sc. subst sc.
  rewrite (guess_score pegs self (remove_dups pegs)); try done.
  - cbn [win black_keys]. split; [apply Z.eqb_eq|].
    rewrite <- elementwise_eq by done.
    split; by apply exact_count_full.
  - apply NoDup_remove_dups.
  - intros v. by rewrite elem_of_remove_dups.
Qed.

Lemma guess_wins_iff_equal_witness :
  let self := mkMastermind [3; 0; 7; 7] 8 10 in
  let sc := (guess [3; 0; 7; 1] self).1 in
  length [3; 0; 7; 1] = 4%nat
  ∧ length (m_hidden_pegs self) = 4%nat
  ∧ (win sc = true ↔ black_keys sc = 4)
  ∧ (black_keys sc = 4 ↔
     ∀ i, (i < 4)%nat → nth i [3; 0; 7; 1] 0 = nth i (m_hidden_pegs self) 0)
  ∧ (black_keys sc = 4 ↔ [3; 0; 7; 1] = m_hidden_pegs self).
Proof.
  intros self sc.
  split; [reflexivity|]. split; [reflexivity|].
  apply (guess_wins_iff_equal [3; 0; 7; 1] self); reflexivity.
Defined.

(** C2.  For a secret and a guess of length 4, the white keys [guess]
    reports are those of the greedy pass of the specification
    ([Greedy.pass2]): after the exact matches are marked consumed, each
    unconsumed guess position, in increasing order, takes the first
    unconsumed secret position of its value, which is then consumed.
    The black keys are the number of exact matches, the white keys are the
    number of pairs (guess position, secret position) the pass matched, the
    flags of [white_matched] are the secret positions of those pairs, no
    secret position and no guess position occurs in two pairs, and no
    position of a pair holds an exact match. *)
Theorem guess_white_keys_greedy (pegs : list Z) (self : Mastermind) :
  length pegs = 4%nat → length (m_hidden_pegs self) = 4%nat →
  let hidden := m_hidden_pegs self in
  let sc := (guess pegs self).1 in
  let white_matched := (find_white pegs hidden (find_black pegs hidden).2).2 in
  let st := Greedy.pass2 pegs hidden in
  black_keys sc = Z.of_nat (size (Greedy.exact_matches pegs hidden))
  ∧ white_keys sc = Greedy.whiteKeys st
  ∧ white_keys sc = Z.of_nat (length (Greedy.matched st))
  ∧ (∀ j, (j < 4)%nat →
       (nth j white_matched false = true ↔ j ∈ (Greedy.matched st).*2))
  ∧ NoDup (Greedy.matched st).*2
  ∧ NoDup (Greedy.matched st).*1
  ∧ (∀ i j, (i, j) ∈ Greedy.matched st →
       (i < 4)%nat ∧ (j < 4)%nat
       ∧ (i ∉ Greedy.exact_matches pegs hidden)
       ∧ (j ∉ Greedy.exact_matches pegs hidden)
       ∧ nth i pegs 0 = nth j hidden 0).
Proof.
  intros Hp Hh hidden sc white_matched st.
  subst sc white_matched st hidden.
  rewrite (guess_closed pegs (m_hidden_pegs self)) by done.
  rewrite (find_black_closed pegs (m_hidden_pegs self)) by done.
  cbn [fst snd black_keys white_keys].
  destruct (find_white_greedy pegs (m_hidden_pegs self) Hp Hh) as [Hsim Hnd1].
  cbv zeta in Hsim, Hnd1.
  destruct Hsim as [Hk Hc Hl Hcons Hfl Hnd2 Hpairs].
  split; [|split; [done|split; [done|split; [|split; [done|split; [done|]]]]]].
  - unfold Greedy.exact_matches, exact_count.
    rewrite size_list_to_set by apply NoDup_filter, NoDup_slots.
    do 2 f_equal. apply filter_bool_prop.
    intros i _. unfold same_at. by rewrite Z.eqb_eq.
  - intros j Hj. apply Hfl. by apply elem_of_slots.
  - intros i j Hij. rewrite <- !elem_of_slots. by apply Hpairs.
Qed.

Lemma guess_white_keys_greedy_witness :
  length [1; 2; 1; 2] = 4%nat
  ∧ length (m_hidden_pegs (mkMastermind [1; 1; 2; 2] 8 10)) = 4%nat
  ∧ white_keys (guess [1; 2; 1; 2] (mkMastermind [1; 1; 2; 2] 8 10)).1 =
    Greedy.whiteKeys (Greedy.pass2 [1; 2; 1; 2] [1; 1; 2; 2]).
Proof.
  split; [reflexivity|split; [reflexivity|]].
  apply (guess_white_keys_greedy [1; 2; 1; 2] (mkMastermind [1; 1; 2; 2] 8 10));
    reflexivity.
Defined.

(** C3.  For a secret and a guess of length 4, the two counts [guess]
    reports are non-negative and add up to at most 4.  No assumption on the
    peg values is needed; in particular it holds when all of them lie in
    [0, colorCount). *)
Theorem guess_keys_at_most_four (pegs : list Z) (self : Mastermind) :
  length pegs = 4%nat → length (m_hidden_pegs self) = 4%nat →
  let sc := (guess pegs self).1 in
  0 <= black_keys sc ∧ 0 <= white_keys sc
  ∧ black_keys sc + white_keys sc <= 4.
Proof.
  intros Hp Hh sc. subst sc.
  assert (NoDup (remove_dups pegs)) as Hnd by apply NoDup_remove_dups.
  assert (∀ v, v ∈ pegs → v ∈ remove_dups pegs) as Hcol
    by (intros v; by rewrite elem_of_remove_dups).
  pose proof (white_keys_nonneg pegs self Hp Hh) as Hw. revert Hw.
  rewrite (guess_score pegs self (remove_dups pegs)) by done.
  cbn [black_keys white_keys]. intros Hw.
  pose proof (exact_count_range pegs (m_hidden_pegs self)).
  pose proof (color_matches_le _ pegs (m_hidden_pegs self) Hnd Hcol) as Hle.
  rewrite Hp in Hle. lia.
Qed.

Lemma guess_keys_at_most_four_witness :
  let self := mkMastermind [1; 1; 5; 2] 6 10 in
  let sc := (guess [0; 1; 1; 5] self).1 in
  length [0; 1; 1; 5] = 4%nat
  ∧ length (m_hidden_pegs self) = 4%nat
  ∧ 0 <= black_keys sc ∧ 0 <= white_keys sc
  ∧ black_keys sc + white_keys sc <= 4.
Proof.
  intros self sc.
  split; [reflexivity|]. split; [reflexivity|].
  apply (guess_keys_at_most_four [0; 1; 1; 5] self); reflexivity.
Defined.

(** C4.  Scoring is symmetric: for sequences [A] and [B] of length 4,
    guessing [A] against the secret [B] and guessing [B] against the secret
    [A] give the same black keys, white keys and win flag, whatever the
    colour counts and turn counters of the two games. *)
Theorem guess_score_symmetric (A B : list Z) (colorsA triesA colorsB triesB : Z) :
  length A = 4%nat → length B = 4%nat →
  (guess A (mkMastermind B colorsB triesB)).1 =
  (guess B (mkMastermind A colorsA triesA)).1.
Proof.
  intros HA HB.
  assert (NoDup (remove_dups (A ++ B))) as Hnd by apply NoDup_remove_dups.
  rewrite (guess_score A _ (remove_dups (A ++ B))),
          (guess_score B _ (remove_dups (A ++ B))); try done.
  - cbn [m_hidden_pegs].
    by rewrite (exact_count_sym B A), (color_matches_comm _ B A).
  - intros v Hv. rewrite elem_of_remove_dups, elem_of_app. by right.
  - intros v Hv. rewrite elem_of_remove_dups, elem_of_app. by left.
Qed.

Lemma guess_score_symmetric_witness :
  length [1; 1; 2; 3] = 4%nat
  ∧ length [2; 1; 1; 1] = 4%nat
  ∧ (guess [1; 1; 2; 3] (mkMastermind [2; 1; 1; 1] 8 10)).1 =
    (guess [2; 1; 1; 1] (mkMastermind [1; 1; 2; 3] 4 2)).1.
Proof.
  split; [reflexivity|]. split; [reflexivity|].
  apply (guess_score_symmetric [1; 1; 2; 3] [2; 1; 1; 1] 4 2 8 10);
    reflexivity.
Defined.

(** C5, as amended.  Regardless of the outcome, a call of [guess] made while
    [turnsLeft()] is positive lowers [turnsLeft()] by exactly 1; for every
    call the new value is the old one minus 1 modulo 2^32. *)
Theorem guess_decrements_turns (pegs : list Z) (self : Mastermind) :
  is_u32 (m_tries_allowed self) →
  let before := (turnsLeft self).1 in
  let after := (turnsLeft (guess pegs self).2).1 in
  after = (before - 1) mod 2 ^ 32
  ∧ (0 < before → after = before - 1).
Proof.
  intros Hu before after. subst before after.
  rewrite guess_state. cbn [turnsLeft fst m_tries_allowed].
  split; [done|]. intros Hpos. apply u32_small.
  unfold is_u32 in *. lia.
Qed.

Lemma guess_decrements_turns_witness :
  is_u32 (m_tries_allowed (mkMastermind [1; 2; 3; 4] 8 10))
  ∧ (turnsLeft (guess [1; 2; 3; 4] (mkMastermind [1; 2; 3; 4] 8 10)).2).1 = 9
  ∧ (turnsLeft (guess [4; 4; 4; 4] (mkMastermind [1; 2; 3; 4] 8 10)).2).1 = 9.
Proof.
  assert (is_u32 10) as Hu by (unfold is_u32, UINT32_MOD; lia).
  split; [exact Hu|]. split.
  - apply (guess_decrements_turns [1; 2; 3; 4] (mkMastermind [1; 2; 3; 4] 8 10) Hu).
    reflexivity.
  - apply (guess_decrements_turns [4; 4; 4; 4] (mkMastermind [1; 2; 3; 4] 8 10) Hu).
    reflexivity.
Defined.

(** C5 as stated fails when [turnsLeft()] is 0: the call of [guess] leaves
    [turnsLeft()] at 4294967295, not at one less than 0. *)
Lemma guess_at_zero_not_decrement :
  let self := mkMastermind [1; 2; 3; 4] 8 0 in
  (turnsLeft self).1 = 0
  ∧ (turnsLeft (guess [5; 5; 5; 5] self).2).1 = 4294967295
  ∧ (turnsLeft (guess [5; 5; 5; 5] self).2).1 ≠ (turnsLeft self).1 - 1.
Proof. split; [reflexivity|split; [reflexivity|discriminate]]. Qed.

(** C6.  With the secret [1,1,2,2] and the guess [1,2,1,2], [guess] reports
    2 black keys and 2 white keys, for every colour count and every turn
    counter. *)
Theorem guess_1122_1212 (colors tries : Z) :
  let sc := (guess [1; 2; 1; 2] (mkMastermind [1; 1; 2; 2] colors tries)).1 in
  black_keys sc = 2 ∧ white_keys sc = 2.
Proof. split; reflexivity. Qed.

(** C7.  No operation changes the secret sequence or the colour count:
    [guess] changes the remaining-turns counter and nothing else, [turnsLeft]
    and [peer] leave the object as it was, and so does every sequence of
    calls as far as the secret and the colour count go.  [peer] hands back
    the secret, value for value, in the caller's array. *)
Theorem secret_immutable (pegs out : list Z) (calls : list call)
    (self : Mastermind) :
  length out = 4%nat → length (m_hidden_pegs self) = 4%nat →
  (guess pegs self).2 =
    {| m_hidden_pegs := m_hidden_pegs self;
       m_peg_colors := m_peg_colors self;
       m_tries_allowed := u32 (m_tries_allowed self - 1) |}
  ∧ (turnsLeft self).2 = self
  ∧ (peer out self).2 = self
  ∧ (peer out self).1 = m_hidden_pegs self
  ∧ m_hidden_pegs (run calls self) = m_hidden_pegs self
  ∧ m_peg_colors (run calls self) = m_peg_colors self.
Proof.
  intros Hout Hh.
  split; [apply guess_state|]. split; [done|]. split; [done|].
  split; [by apply peer_copies|]. apply run_frame.
Qed.

Lemma secret_immutable_witness :
  let self := mkMastermind [2; 0; 1; 1] 3 2 in
  let calls := [CallGuess [0; 0; 0; 0]; CallTurnsLeft; CallGuess [2; 0; 1; 1];
                CallPeer [9; 9; 9; 9]; CallGuess [1; 1; 1; 1]] in
  length [9; 9; 9; 9] = 4%nat
  ∧ length (m_hidden_pegs self) = 4%nat
  ∧ (peer [9; 9; 9; 9] self).1 = [2; 0; 1; 1]
  ∧ m_hidden_pegs (run calls self) = [2; 0; 1; 1]
  ∧ m_peg_colors (run calls self) = 3.
Proof.
  intros self calls.
  destruct (secret_immutable [0; 0; 0; 0] [9; 9; 9; 9] calls self
              eq_refl eq_refl) as (_ & _ & _ & Hpeer & Hsecret & Hcolors).
  split; [reflexivity|]. split; [reflexivity|].
  split; [exact Hpeer|]. split; [exact Hsecret|exact Hcolors].
Defined.

(** C8.  Let every secret peg lie in [0, colorCount) and let the guess peg
    at position [i] lie outside.  Then that peg equals no secret peg; the
    iteration for [i] of the black-key loop and the iteration for [i] of the
    white-key loop leave the counts and the flags as they were, whatever
    these are; and the guess gets at most 3 keys and does not win.  [guess]
    has no error result: it returns a score for every guess. *)
Theorem out_of_range_peg_scores_nothing (pegs : list Z) (self : Mastermind)
    (i : nat) :
  length pegs = 4%nat → length (m_hidden_pegs self) = 4%nat →
  (∀ v, v ∈ m_hidden_pegs self → 0 <= v < m_peg_colors self) →
  (i < 4)%nat → ¬ (0 <= nth i pegs 0 < m_peg_colors self) →
  let hidden := m_hidden_pegs self in
  let sc := (guess pegs self).1 in
  (∀ j, (j < 4)%nat → (nth i pegs 0 =? nth j hidden 0) = false)
  ∧ (∀ st, black_iter pegs hidden st i = st)
  ∧ (∀ black_matched st, white_iter pegs hidden black_matched st i = st)
  ∧ black_keys sc + white_keys sc <= 3
  ∧ win sc = false.
Proof.
  intros Hp Hh Hin Hi Hout hidden sc.
  assert (nth i pegs 0 ∉ hidden) as Hnot by (intros Hv; by apply Hin in Hv).
  assert (∀ j, (j < 4)%nat → (nth i pegs 0 =? nth j hidden 0) = false) as Hne.
  { intros j Hj. apply Z.eqb_neq. intros Heq. apply Hnot. rewrite Heq.
    apply nth_elem_of. unfold hidden. lia. }
  split; [done|]. split; [|split].
  - intros [bk bm]. unfold black_iter. by rewrite Hne.
  - intros bm [wk wm]. unfold white_iter. destruct (nth i bm false); [done|].
    rewrite white_scan_find, find_all_false; [done|].
    intros j Hj%elem_of_slots. unfold takes. rewrite Hne by done.
    apply andb_false_r.
  - assert (NoDup (remove_dups pegs)) as Hnd by apply NoDup_remove_dups.
    assert (∀ v, v ∈ pegs → v ∈ remove_dups pegs) as Hcol
      by (intros v; by rewrite elem_of_remove_dups).
    pose proof (white_keys_nonneg pegs self Hp Hh) as Hw. revert Hw.
    subst sc. rewrite (guess_score pegs self (remove_dups pegs)) by done.
    cbn [win black_keys white_keys]. intros Hw.
    pose proof (color_matches_absent _ pegs hidden (nth i pegs 0) Hnd Hcol) as Hle.
    rewrite Hp in Hle. fold hidden in Hw |- *.
    assert (color_matches (remove_dups pegs) pegs hidden <= 3) as Hle3.
    { apply Hle; [|done]. apply nth_elem_of. lia. }
    split; [lia|]. apply Z.eqb_neq. unfold PEG_SLOTS. lia.
Qed.

Lemma out_of_range_peg_scores_nothing_witness :
  let self := mkMastermind [1; 1; 5; 2] 6 10 in
  let sc := (guess [1; 6; 1; 5] self).1 in
  ¬ (0 <= nth 1 [1; 6; 1; 5] 0 < m_peg_colors self)
  ∧ black_iter [1; 6; 1; 5] [1; 1; 5; 2] (1, [true; false; false; false]) 1
    = (1, [true; false; false; false])
  ∧ black_keys sc + white_keys sc <= 3
  ∧ win sc = false.
Proof.
  intros self sc.
  assert (¬ (0 <= nth 1 [1; 6; 1; 5] 0 < m_peg_colors self)) as Hout
    by (simpl; lia).
  split; [exact Hout|].
  assert (∀ v, v ∈ m_hidden_pegs self → 0 <= v < m_peg_colors self) as Hin.
  { intros v Hv. simpl in Hv |- *.
    repeat (apply elem_of_cons in Hv as [->|Hv]; [lia|]).
    by apply elem_of_nil in Hv. }
  destruct (out_of_range_peg_scores_nothing [1; 6; 1; 5] self 1
              eq_refl eq_refl Hin ltac:(lia) Hout) as (_ & Hb & _ & Hk & Hw).
  split; [apply Hb|]. split; [exact Hk|exact Hw].
Defined.

(** C9.  For a secret and a guess of length 4, the white keys [guess]
    reports are the sum, over the colour values, of the smaller of the
    number of occurrences in the guess and in the secret, minus the black
    keys.  The colour values summed over may be any duplicate-free list
    that holds every value of the guess or every value of the secret.  The
    count is that of a maximum colour-only matching: no colour-only matching
    has more pairs, and one has exactly that many. *)
Theorem guess_white_keys_multiset (pegs colors : list Z) (self : Mastermind) :
  length pegs = 4%nat → length (m_hidden_pegs self) = 4%nat →
  NoDup colors →
  (∀ v, v ∈ pegs → v ∈ colors) ∨ (∀ v, v ∈ m_hidden_pegs self → v ∈ colors) →
  let hidden := m_hidden_pegs self in
  let sc := (guess pegs self).1 in
  white_keys sc = color_matches colors pegs hidden - black_keys sc
  ∧ (∀ M, color_only_matching pegs hidden M →
       Z.of_nat (length M) <= white_keys sc)
  ∧ (∃ M, color_only_matching pegs hidden M
          ∧ Z.of_nat (length M) = white_keys sc).
Proof.
  intros Hp Hh Hnd Hcol hidden sc. subst sc hidden.
  split; [by apply guess_score_either|].
  rewrite (guess_closed pegs (m_hidden_pegs self)) by done.
  cbn [fst white_keys]. split.
  - intros M HM.
    apply (matching_bound _ _ Hp Hh (remove_dups pegs)); [|by intros v; rewrite elem_of_remove_dups|done].
    apply NoDup_remove_dups.
  - exists (Greedy.matched (Greedy.pass2 pegs (m_hidden_pegs self))).
    by apply greedy_matching.
Qed.

Lemma guess_white_keys_multiset_witness :
  let self := mkMastermind [1; 1; 5; 2] 6 10 in
  let sc := (guess [7; 1; 1; 5] self).1 in
  length [7; 1; 1; 5] = 4%nat
  ∧ length (m_hidden_pegs self) = 4%nat
  ∧ NoDup [0; 1; 2; 3; 4; 5]
  ∧ (∀ v, v ∈ m_hidden_pegs self → v ∈ [0; 1; 2; 3; 4; 5])
  ∧ white_keys sc =
    color_matches [0; 1; 2; 3; 4; 5] [7; 1; 1; 5] (m_hidden_pegs self)
    - black_keys sc.
Proof.
  intros self sc.
  assert (NoDup [0; 1; 2; 3; 4; 5]) as Hnd.
  { apply (bool_decide_unpack _). vm_compute. exact I. }
  assert (∀ v, v ∈ m_hidden_pegs self → v ∈ [0; 1; 2; 3; 4; 5]) as Hcol.
  { apply Forall_forall. apply (bool_decide_unpack _). vm_compute. exact I. }
  split; [reflexivity|]. split; [reflexivity|].
  split; [exact Hnd|]. split; [exact Hcol|].
  apply (guess_white_keys_multiset [7; 1; 1; 5] [0; 1; 2; 3; 4; 5] self
           eq_refl eq_refl Hnd (or_intror Hcol)).
Defined.

(** C10.  A call of [guess] made when [turnsLeft()] is 0 leaves
    [turnsLeft()] at 4294967295.  Nothing in [guess] looks at the counter:
    the score is the one the same guess gets with any other counter. *)
Theorem guess_at_zero_wraps (pegs : list Z) (self : Mastermind) :
  (turnsLeft self).1 = 0 →
  (turnsLeft (guess pegs self).2).1 = 4294967295
  ∧ ∀ tries,
      (guess pegs self).1 =
      (guess pegs (mkMastermind (m_hidden_pegs self) (m_peg_colors self) tries)).1.
Proof.
  cbn [turnsLeft fst]. intros H0. rewrite guess_state.
  cbn [m_tries_allowed]. rewrite H0. split; [reflexivity|].
  intros tries. unfold guess. cbn [m_hidden_pegs].
  destruct (find_black _ _) as [bk bm]. by destruct (find_white _ _ _).
Qed.

Lemma guess_at_zero_wraps_witness :
  (turnsLeft (mkMastermind [1; 2; 3; 4] 8 0)).1 = 0
  ∧ (turnsLeft (guess [1; 2; 3; 4] (mkMastermind [1; 2; 3; 4] 8 0)).2).1
    = 4294967295.
Proof.
  split; [reflexivity|].
  apply (guess_at_zero_wraps [1; 2; 3; 4] (mkMastermind [1; 2; 3; 4] 8 0)).
  reflexivity.
Defined.

(** * Further properties of the class *)

Lemma score_sum pegs self colors :
  length pegs = 4%nat → length (m_hidden_pegs self) = 4%nat →
  NoDup colors → (∀ v, v ∈ pegs → v ∈ colors) →
  black_keys (guess pegs self).1 + white_keys (guess pegs self).1 =
  color_matches colors pegs (m_hidden_pegs self).
Proof.
  intros Hp Hh Hnd Hcol. rewrite (guess_score pegs self colors) by done.
  cbn [black_keys white_keys]. lia.
Qed.

Lemma u32_idemp_sub z n : u32 (u32 z - n) = u32 (z - n).
Proof. unfold u32. by rewrite Zminus_mod_idemp_l. Qed.

(** Sums that agree although one summand is pointwise below the other
    agree summand by summand. *)
Lemma sum_over_squeeze f h colors :
  (∀ v, v ∈ colors → f v <= h v) →
  sum_over f colors = sum_over h colors →
  ∀ v, v ∈ colors → f v = h v.
Proof.
  unfold sum_over. induction colors as [|c colors IH]; intros Hle Hsum v Hv.
  - by apply elem_of_nil in Hv.
  - simpl in Hsum.
    pose proof (Hle c ltac:(left)) as Hc.
    assert (∀ v, v ∈ colors → f v <= h v) as Hrest
      by (intros w Hw; apply Hle; by right).
    pose proof (sum_over_le f h colors Hrest) as Hs. unfold sum_over in Hs.
    apply elem_of_cons in Hv as [->|Hv]; [lia|].
    apply IH; [done|lia|done].
Qed.

Lemma cover_both (A B : list Z) :
  NoDup (remove_dups (A ++ B))
  ∧ (∀ v, v ∈ A → v ∈ remove_dups (A ++ B))
  ∧ (∀ v, v ∈ B → v ∈ remove_dups (A ++ B)).
Proof.
  split; [apply NoDup_remove_dups|].
  split; intros v Hv; rewrite elem_of_remove_dups, elem_of_app; tauto.
Qed.

Lemma u32_range z : is_u32 (u32 z).
Proof. unfold is_u32, u32. apply Z.mod_pos_bound. reflexivity. Qed.

Lemma guesses_in_guess pegs calls :
  guesses_in (CallGuess pegs :: calls) = guesses_in calls + 1.
Proof. unfold guesses_in. cbn [List.filter length]. lia. Qed.

Lemma run_counter calls self :
  is_u32 (m_tries_allowed self) →
  m_tries_allowed (run calls self) =
  u32 (m_tries_allowed self - guesses_in calls).
Proof.
  revert self. induction calls as [|c calls IH]; intros self Hu.
  - unfold guesses_in. simpl. rewrite Z.sub_0_r. by rewrite u32_small.
  - change (run (c :: calls) self) with (run calls (perform self c)).
    destruct c as [pegs| |pegs].
    + rewrite IH; cbn [perform]; rewrite guess_state; cbn [m_tries_allowed];
        [|apply u32_range].
      rewrite u32_idemp_sub, guesses_in_guess. f_equal. lia.
    + by rewrite IH.
    + by rewrite IH.
Qed.

(** X1.  Only calls of [guess] use up turns, one each: after a sequence of
    calls on an object whose counter is a [uint32_t] value, [turnsLeft()] is
    the old value minus the number of [guess] calls, modulo 2^32, and is
    exactly that difference as long as no more guesses were made than turns
    were left. *)
Theorem run_turns_left (calls : list call) (self : Mastermind) :
  is_u32 (m_tries_allowed self) →
  (turnsLeft (run calls self)).1 =
    (m_tries_allowed self - guesses_in calls) mod 2 ^ 32
  ∧ (guesses_in calls <= m_tries_allowed self →
     (turnsLeft (run calls self)).1 = m_tries_allowed self - guesses_in calls).
Proof.
  intros Hu. cbn [turnsLeft fst]. rewrite run_counter by done.
  split; [done|]. intros Hle. apply u32_small.
  unfold is_u32 in *. unfold guesses_in in *. lia.
Qed.

Lemma run_turns_left_witness :
  let self := mkMastermind [1; 2; 3; 4] 8 3 in
  let calls := [CallGuess [0; 0; 0; 0]; CallPeer [9; 9; 9; 9];
                CallGuess [4; 3; 2; 1]; CallTurnsLeft; CallGuess [1; 2; 3; 0]] in
  is_u32 (m_tries_allowed self)
  ∧ guesses_in calls <= m_tries_allowed self
  ∧ (turnsLeft (run calls self)).1 = 0.
Proof.
  intros self calls.
  assert (is_u32 (m_tries_allowed self)) as Hu
    by (unfold is_u32, UINT32_MOD; simpl; lia).
  assert (guesses_in calls <= m_tries_allowed self) as Hle
    by (vm_compute; discriminate).
  split; [exact Hu|]. split; [exact Hle|].
  exact (proj2 (run_turns_left calls self Hu) Hle).
Defined.

Lemma score_bounds pegs self :
  length pegs = 4%nat → length (m_hidden_pegs self) = 4%nat →
  0 <= white_keys (guess pegs self).1
  ∧ black_keys (guess pegs self).1 + white_keys (guess pegs self).1 <= 4.
Proof.
  intros Hp Hh. split; [by apply white_keys_nonneg|].
  destruct (cover_both pegs pegs) as (Hnd & Hcol & _).
  rewrite (score_sum pegs self _ Hp Hh Hnd Hcol).
  pose proof (color_matches_le _ pegs (m_hidden_pegs self) Hnd Hcol) as Hle.
  rewrite Hp in Hle. lia.
Qed.

Lemma black_keys_closed pegs self :
  length pegs = 4%nat → length (m_hidden_pegs self) = 4%nat →
  black_keys (guess pegs self).1 = exact_count pegs (m_hidden_pegs self)
  ∧ win (guess pegs self).1 = (exact_count pegs (m_hidden_pegs self) =? 4).
Proof.
  intros Hp Hh. by rewrite (guess_closed pegs (m_hidden_pegs self)).
Qed.

(** X2.  A winning guess scores exactly 4 black keys and no white key, and
    guessing what [peer] hands back wins. *)
Theorem winning_score (pegs out : list Z) (self : Mastermind) :
  length pegs = 4%nat → length out = 4%nat →
  length (m_hidden_pegs self) = 4%nat →
  (win (guess pegs self).1 = true →
   black_keys (guess pegs self).1 = 4 ∧ white_keys (guess pegs self).1 = 0)
  ∧ (guess (peer out self).1 self).1 =
    {| win := true; black_keys := 4; white_keys := 0 |}.
Proof.
  intros Hp Hout Hh.
  assert (∀ g, length g = 4%nat → win (guess g self).1 = true →
            black_keys (guess g self).1 = 4 ∧ white_keys (guess g self).1 = 0)
    as Hwin.
  { intros g Hg Hw.
    destruct (black_keys_closed g self Hg Hh) as [Hbk Hwn].
    destruct (score_bounds g self Hg Hh) as [H0 H4].
    rewrite Hwn in Hw. apply Z.eqb_eq in Hw. lia. }
  split; [by apply Hwin|].
  rewrite peer_copies by done.
  assert (win (guess (m_hidden_pegs self) self).1 = true) as Hw.
  { rewrite (proj2 (black_keys_closed _ self Hh Hh)). apply Z.eqb_eq.
    by apply exact_count_full. }
  destruct (Hwin _ Hh Hw) as [Hb Hwk].
  destruct (guess (m_hidden_pegs self) self).1 as [w b k].
  simpl in *. by subst.
Qed.

Lemma winning_score_witness :
  let self := mkMastermind [2; 0; 1; 1] 3 2 in
  length [2; 0; 1; 1] = 4%nat ∧ length [7; 7; 7; 7] = 4%nat
  ∧ length (m_hidden_pegs self) = 4%nat
  ∧ (guess (peer [7; 7; 7; 7] self).1 self).1 =
    {| win := true; black_keys := 4; white_keys := 0 |}.
Proof.
  intros self. split; [reflexivity|]. split; [reflexivity|].
  split; [reflexivity|].
  exact (proj2 (winning_score [2; 0; 1; 1] [7; 7; 7; 7] self
                  eq_refl eq_refl eq_refl)).
Defined.

Lemma three_exact_one_left (A B : list Z) i j :
  length A = 4%nat → length B = 4%nat → exact_count A B = 3 →
  (i < 4)%nat → (j < 4)%nat →
  nth i A 0 ≠ nth i B 0 → nth j A 0 ≠ nth j B 0 → i = j.
Proof.
  intros (a & b & c & d & ->)%length4 (e & f & g & h & ->)%length4.
  unfold exact_count, slots, same_at. simpl.
  destruct (Z.eqb_spec a e), (Z.eqb_spec b f), (Z.eqb_spec c g),
    (Z.eqb_spec d h); simpl; intros H3; try discriminate H3;
    intros Hi Hj;
    destruct i as [|[|[|[|i]]]]; try lia;
    destruct j as [|[|[|[|j]]]]; try lia; simpl; congruence.
Qed.

(** X3.  Three black keys leave no white key: the score (3, 1) does not
    occur. *)
Theorem three_black_no_white (pegs : list Z) (self : Mastermind) :
  length pegs = 4%nat → length (m_hidden_pegs self) = 4%nat →
  black_keys (guess pegs self).1 = 3 →
  white_keys (guess pegs self).1 = 0.
Proof.
  intros Hp Hh. rewrite (guess_closed pegs (m_hidden_pegs self)) by done.
  cbn [fst black_keys white_keys]. intros H3.
  destruct (greedy_matching pegs (m_hidden_pegs self) Hp Hh)
    as [(_ & _ & HM) <-].
  destruct (Greedy.matched _) as [|[i j] M]; [done|]. exfalso.
  destruct (HM i j ltac:(left)) as (Hi & Hj & Hni & Hnj & Heq).
  assert (i = j) as -> by (by apply (three_exact_one_left pegs (m_hidden_pegs self))).
  done.
Qed.

Lemma three_black_no_white_witness :
  let self := mkMastermind [1; 1; 5; 2] 6 10 in
  length [1; 1; 5; 1] = 4%nat ∧ length (m_hidden_pegs self) = 4%nat
  ∧ black_keys (guess [1; 1; 5; 1] self).1 = 3
  ∧ white_keys (guess [1; 1; 5; 1] self).1 = 0.
Proof.
  intros self. split; [reflexivity|]. split; [reflexivity|].
  split; [reflexivity|].
  apply (three_black_no_white [1; 1; 5; 1] self); reflexivity.
Defined.

Lemma occurrences_count v l k :
  occurrences v l = occurrences v k ↔
  count_occ Z.eq_dec l v = count_occ Z.eq_dec k v.
Proof. unfold occurrences. lia. Qed.

(** X4.  Every peg gets a key exactly when the guess is a rearrangement of
    the secret: the two counts add up to 4 if and only if the guess is a
    permutation of the secret. *)
Theorem all_keys_iff_permutation (pegs : list Z) (self : Mastermind) :
  length pegs = 4%nat → length (m_hidden_pegs self) = 4%nat →
  black_keys (guess pegs self).1 + white_keys (guess pegs self).1 = 4
  ↔ pegs ≡ₚ m_hidden_pegs self.
Proof.
  intros Hp Hh. set (hidden := m_hidden_pegs self) in *.
  destruct (cover_both pegs hidden) as (Hnd & Hcp & Hch).
  set (colors := remove_dups (pegs ++ hidden)) in *.
  rewrite (score_sum pegs self colors) by done. fold hidden.
  pose proof (sum_over_occurrences colors pegs Hnd Hcp) as Sp.
  pose proof (sum_over_occurrences colors hidden Hnd Hch) as Sh.
  rewrite Hp in Sp. rewrite Hh in Sh. rewrite color_matches_sum.
  split.
  - intros H4. apply (Permutation_count_occ Z.eq_dec). intros v.
    apply occurrences_count.
    destruct (decide (v ∈ colors)) as [Hv|Hv].
    + assert (Z.min (occurrences v pegs) (occurrences v hidden)
              = occurrences v pegs) as H1.
      { apply (sum_over_squeeze
          (λ v, Z.min (occurrences v pegs) (occurrences v hidden))
          (λ v, occurrences v pegs) colors); [intros; lia|lia|done]. }
      assert (Z.min (occurrences v pegs) (occurrences v hidden)
              = occurrences v hidden) as H2.
      { apply (sum_over_squeeze
          (λ v, Z.min (occurrences v pegs) (occurrences v hidden))
          (λ v, occurrences v hidden) colors); [intros; lia|lia|done]. }
      lia.
    + rewrite !occurrences_absent; [done|intros ?; apply Hv..]; auto.
  - intros Hperm.
    transitivity (sum_over (λ v, occurrences v pegs) colors); [|lia].
    apply sum_over_ext. intros v _.
    pose proof (proj1 (Permutation_count_occ Z.eq_dec pegs hidden) Hperm v)
      as Hc.
    apply occurrences_count in Hc. lia.
Qed.

Lemma all_keys_iff_permutation_witness :
  let self := mkMastermind [1; 1; 5; 2] 6 10 in
  length [5; 1; 2; 1] = 4%nat ∧ length (m_hidden_pegs self) = 4%nat
  ∧ [5; 1; 2; 1] ≡ₚ m_hidden_pegs self.
Proof.
  intros self. split; [reflexivity|]. split; [reflexivity|].
  apply (all_keys_iff_permutation [5; 1; 2; 1] self); reflexivity.
Defined.

(** X5.  No peg gets a key exactly when the guess and the secret have no
    colour in common. *)
Theorem no_key_iff_disjoint (pegs : list Z) (self : Mastermind) :
  length pegs = 4%nat → length (m_hidden_pegs self) = 4%nat →
  black_keys (guess pegs self).1 + white_keys (guess pegs self).1 = 0
  ↔ ∀ v, v ∈ pegs → v ∉ m_hidden_pegs self.
Proof.
  intros Hp Hh. set (hidden := m_hidden_pegs self) in *.
  destruct (cover_both pegs hidden) as (Hnd & Hcp & Hch).
  set (colors := remove_dups (pegs ++ hidden)) in *.
  rewrite (score_sum pegs self colors) by done. fold hidden.
  rewrite color_matches_sum.
  assert (sum_over (λ _, 0) colors = 0) as Hz.
  { unfold sum_over. clear. induction colors; simpl; lia. }
  split.
  - intros H0 v Hv Hvh.
    assert (0 = Z.min (occurrences v pegs) (occurrences v hidden)) as Hmin.
    { apply (sum_over_squeeze (λ _, 0)
        (λ v, Z.min (occurrences v pegs) (occurrences v hidden)) colors).
      - intros w _. pose proof (occurrences_nonneg w pegs).
        pose proof (occurrences_nonneg w hidden). lia.
      - lia.
      - by apply Hcp. }
    pose proof (occurrences_present v pegs Hv).
    pose proof (occurrences_present v hidden Hvh). lia.
  - intros Hdis. rewrite <- Hz. apply sum_over_ext. intros v _.
    pose proof (occurrences_nonneg v pegs).
    pose proof (occurrences_nonneg v hidden).
    destruct (decide (v ∈ pegs)) as [Hv|Hv].
    + rewrite (occurrences_absent v hidden) by by apply Hdis. lia.
    + rewrite (occurrences_absent v pegs) by done. lia.
Qed.

Lemma no_key_iff_disjoint_witness :
  let self := mkMastermind [1; 1; 5; 2] 6 10 in
  length [0; 3; 3; 6] = 4%nat ∧ length (m_hidden_pegs self) = 4%nat
  ∧ ∀ v, v ∈ [0; 3; 3; 6] → v ∉ m_hidden_pegs self.
Proof.
  intros self. split; [reflexivity|]. split; [reflexivity|].
  apply (no_key_iff_disjoint [0; 3; 3; 6] self); reflexivity.
Defined.

Lemma occurrences_map (f : Z → Z) v l :
  Inj (=) (=) f → occurrences (f v) (map f l) = occurrences v l.
Proof.
  intros Hf. induction l as [|x l IH]; [done|].
  simpl map. rewrite !occurrences_cons, IH.
  repeat case_decide; try done; [by apply (inj f) in H|by subst].
Qed.

Lemma color_matches_map (f : Z → Z) colors A B :
  Inj (=) (=) f →
  color_matches (map f colors) (map f A) (map f B) = color_matches colors A B.
Proof.
  intros Hf. unfold color_matches. rewrite map_map. f_equal.
  apply map_ext. intros v. by rewrite !occurrences_map.
Qed.

Lemma exact_count_map (f : Z → Z) A B :
  Inj (=) (=) f → length A = 4%nat → length B = 4%nat →
  exact_count (map f A) (map f B) = exact_count A B.
Proof.
  intros Hf (a & b & c & d & ->)%length4 (e & g & h & k & ->)%length4.
  assert (∀ x y, (f x =? f y) = (x =? y)) as Heq.
  { intros x y. destruct (Z.eqb_spec x y) as [->|Hne]; [apply Z.eqb_refl|].
    apply Z.eqb_neq. intros Hxy. by apply (inj f) in Hxy. }
  unfold exact_count, slots, same_at. simpl. by rewrite !Heq.
Qed.

(** X6.  Colours are labels: renaming the colours of the guess and of the
    secret by the same one-to-one map changes nothing in the score. *)
Theorem score_recolouring (f : Z → Z) (pegs : list Z) (self : Mastermind)
    (colors tries : Z) :
  Inj (=) (=) f →
  length pegs = 4%nat → length (m_hidden_pegs self) = 4%nat →
  (guess (map f pegs)
         (mkMastermind (map f (m_hidden_pegs self)) colors tries)).1 =
  (guess pegs self).1.
Proof.
  intros Hf Hp Hh.
  destruct (cover_both pegs pegs) as (Hnd & Hcol & _).
  rewrite (guess_score pegs self _ Hp Hh Hnd Hcol).
  rewrite (guess_score (map f pegs) _ (map f (remove_dups (pegs ++ pegs)))).
  - cbn [m_hidden_pegs].
    by rewrite exact_count_map, color_matches_map.
  - by rewrite length_map.
  - cbn [m_hidden_pegs]. by rewrite length_map.
  - by apply (NoDup_fmap_2 f).
  - intros v (w & -> & Hw)%(list_elem_of_fmap f).
    apply (list_elem_of_fmap_2 f). by apply Hcol.
Qed.

Lemma score_recolouring_witness :
  let self := mkMastermind [1; 1; 5; 2] 6 10 in
  Inj (=) (=) (λ v, 9 - v)
  ∧ length [5; 1; 0; 1] = 4%nat ∧ length (m_hidden_pegs self) = 4%nat
  ∧ (guess [4; 8; 9; 8] (mkMastermind [8; 8; 4; 7] 10 3)).1 =
    (guess [5; 1; 0; 1] self).1.
Proof.
  intros self.
  assert (Inj (=) (=) (λ v, 9 - v)) as Hf by (intros x y Hxy; lia).
  split; [exact Hf|]. split; [reflexivity|]. split; [reflexivity|].
  exact (score_recolouring (λ v, 9 - v) [5; 1; 0; 1] self 10 3 Hf
           eq_refl eq_refl).
Defined.

(** * The constructor and the configuration of [main] *)




(** X8.  Whatever was parsed, the configuration the game starts with has
    between 2 and 10 colours and at least 2 tries: the colour count is
    brought into [2, 10], the tries are raised to 2 when below, and a
    warning is printed exactly when a value was changed. *)
Theorem clamp_config_bounds (cfg : Z * Z) :
  let '(warnings, (peg_colors, tries_allowed)) := clamp_config cfg in
  peg_colors = Z.max MIN_PEG_COLORS (Z.min MAX_PEG_COLORS cfg.1)
  ∧ tries_allowed = Z.max MIN_TRIES_ALLOWED cfg.2
  ∧ 2 <= peg_colors <= 10
  ∧ 2 <= tries_allowed
  ∧ (warnings = [] ↔ (peg_colors, tries_allowed) = cfg).
Proof.
  destruct cfg as [c t]. unfold clamp_config.
  unfold MAX_PEG_COLORS, MIN_PEG_COLORS, MIN_TRIES_ALLOWED. cbn [fst snd].
  destruct (Z.gtb_spec c (2 + 8)) as [Hc|Hc];
    [change (2 + 8 <? 2) with false|destruct (Z.ltb_spec c 2) as [Hc2|Hc2]];
    destruct (Z.ltb_spec t 2) as [Ht|Ht]; cbn [app];
    (split; [lia|]); (split; [lia|]); (split; [lia|]); (split; [lia|]);
    (split; [try discriminate|intros [? ?]%pair_equal_spec; try lia]);
    try done.
Qed.

(** An argument cannot pass both flag tests. *)
Lemma flag_t_not_c (s : string) :
  String.prefix "-t" s = true → String.prefix "-c" s = false.
Proof.
  intros Ht. destruct (String.prefix "-c" s) eqn:Hc; [|done].
  apply String.prefix_correct in Ht, Hc. cbn [String.length] in Ht, Hc.
  rewrite Ht in Hc. discriminate Hc.
Qed.

(** X9.  A negative number after a flag is not treated as too small.  The
    [int] that [atoi] returns is stored in a [uint32_t]: a negative colour
    count becomes a huge one and is cut to 10, not raised to 2, and a
    negative number of tries [n] starts the game with 2^32 + [n] tries,
    without a warning for the tries. *)
Theorem negative_arguments (atoi : string → Z) (prog fc vc ft vt : string) :
  String.prefix "-c" fc = true → String.prefix "-t" ft = true →
  - 2 ^ 31 <= atoi vc < 0 → - 2 ^ 31 <= atoi vt < 0 →
  ∃ cfg, parse_args atoi [prog; fc; vc; ft; vt] = Some cfg
       ∧ clamp_config cfg =
         ([Text "Wrong number of colors,  set to "; Num MAX_PEG_COLORS; Endl],
          (10, 2 ^ 32 + atoi vt)).
Proof.
  intros Hfc Hft2 Hvc Hvt. pose proof (flag_t_not_c ft Hft2) as Hft1.
  exists (u32 (atoi vc), u32 (atoi vt)). split.
  - unfold parse_args. cbn [length Nat.eqb orb tail scan_args].
    rewrite Hfc. cbn [scan_args snd fst]. by rewrite Hft1, Hft2.
  - assert (u32 (atoi vc) = 2 ^ 32 + atoi vc) as ->.
    { unfold u32, UINT32_MOD. symmetry.
      apply (Z.mod_unique_pos _ _ (-1)); lia. }
    assert (u32 (atoi vt) = 2 ^ 32 + atoi vt) as ->.
    { unfold u32, UINT32_MOD. symmetry.
      apply (Z.mod_unique_pos _ _ (-1)); lia. }
    unfold clamp_config, MAX_PEG_COLORS, MIN_PEG_COLORS, MIN_TRIES_ALLOWED.
    destruct (Z.gtb_spec (2 ^ 32 + atoi vc) (2 + 8)); [|lia].
    change (2 + 8 <? 2) with false.
    destruct (Z.ltb_spec (2 ^ 32 + atoi vt) 2); [lia|]. reflexivity.
Qed.

Lemma negative_arguments_witness :
  let atoi := λ s : string,
    if String.eqb s "-7" then -7 else if String.eqb s "-1" then -1 else 0 in
  String.prefix "-c" "-c" = true ∧ String.prefix "-t" "-t" = true
  ∧ - 2 ^ 31 <= atoi "-7" < 0 ∧ - 2 ^ 31 <= atoi "-1" < 0
  ∧ ∃ cfg, parse_args atoi ["mastermind"; "-c"; "-7"; "-t"; "-1"] = Some cfg
         ∧ (clamp_config cfg).2 = (10, 4294967295).
Proof.
  intros atoi.
  assert (- 2 ^ 31 <= atoi "-7" < 0) as H7
    by (change (atoi "-7") with (-7); lia).
  assert (- 2 ^ 31 <= atoi "-1" < 0) as H1
    by (change (atoi "-1") with (-1); lia).
  split; [reflexivity|]. split; [reflexivity|].
  split; [exact H7|]. split; [exact H1|].
  destruct (negative_arguments atoi "mastermind" "-c" "-7" "-t" "-1"
              eq_refl eq_refl H7 H1) as (cfg & Hp & Hc).
  exists cfg. split; [exact Hp|]. rewrite Hc. reflexivity.
Defined.

(** An argument that is neither a [-c] nor a [-t] flag. *)
Lemma scan_args_no_flag atoi args cfg :
  (∀ a, a ∈ args →
     String.prefix "-c" a = false ∧ String.prefix "-t" a = false) →
  scan_args atoi args cfg = Some cfg.
Proof.
  induction args as [|a args IH]; intros Hno; [done|].
  cbn [scan_args]. destruct (Hno a ltac:(left)) as [-> ->].
  apply IH. intros b Hb. apply Hno. by right.
Qed.

Lemma argc_cases (argv : list string) :
  (length argv =? 5)%nat || (length argv =? 3)%nat = true
  ↔ length argv = 5%nat ∨ length argv = 3%nat.
Proof. rewrite orb_true_iff, !Nat.eqb_eq. tauto. Qed.

(** X10.  The arguments take effect only through a [-c] or [-t] flag seen
    with [argc] equal to 3 or 5.  When [argc] is neither 3 nor 5, or when no
    argument after the program name starts with [-c] or [-t], the program
    does what it does without arguments, unless it is the call for help
    ([argc] 2 and an argument that starts with [-h]). *)
Theorem arguments_ignored (atoi : string → Z) (draw : nat → Z) (cin : list Z)
    (argv : list string) :
  (length argv ≠ 3%nat ∧ length argv ≠ 5%nat)
  ∨ (∀ a, a ∈ tail argv →
       String.prefix "-c" a = false ∧ String.prefix "-t" a = false) →
  ¬ (length argv = 2%nat ∧ String.prefix "-h" (nth 1 argv "") = true) →
  main atoi draw cin argv = main atoi draw cin [].
Proof.
  intros Hign Hhelp.
  assert (parse_args atoi argv = Some (8, 10)) as Hparse.
  { unfold parse_args.
    destruct ((length argv =? 5)%nat || (length argv =? 3)%nat) eqn:Hargc;
      [|done].
    apply argc_cases in Hargc. destruct Hign as [[H3 H5]|Hno]; [tauto|].
    by apply scan_args_no_flag. }
  unfold main. rewrite Hparse.
  destruct ((length argv =? 2)%nat && String.prefix "-h" (nth 1 argv ""))
    eqn:Hh; [|done].
  apply andb_true_iff in Hh as [Hl%Nat.eqb_eq Hp]. tauto.
Qed.

Lemma arguments_ignored_witness :
  let atoi := λ s : string, if String.eqb s "4" then 4 else 0 in
  (length ["mastermind"; "-c"; "4"; "-t"] ≠ 3%nat
   ∧ length ["mastermind"; "-c"; "4"; "-t"] ≠ 5%nat)
  ∧ main atoi (λ _, 1) [1; 1; 1; 1] ["mastermind"; "-c"; "4"; "-t"] =
    main atoi (λ _, 1) [1; 1; 1; 1] [].
Proof.
  intros atoi.
  assert (length ["mastermind"; "-c"; "4"; "-t"] ≠ 3%nat
          ∧ length ["mastermind"; "-c"; "4"; "-t"] ≠ 5%nat) as Hl
    by (split; discriminate).
  split; [exact Hl|].
  apply (arguments_ignored atoi (λ _, 1) [1; 1; 1; 1]
           ["mastermind"; "-c"; "4"; "-t"] (or_introl Hl)).
  intros [Hlen _]. discriminate Hlen.
Defined.

(** X11.  A flag in last position has no value to take: when [argc] is 3 or
    5, the last argument starts with [-c] or [-t] and no argument before it
    does, the scan goes on to [argv[argc]], and neither the scan nor [main]
    has a result. *)
Theorem dangling_flag (atoi : string → Z) (draw : nat → Z) (cin : list Z)
    (prog flag : string) (args : list string) :
  length args = 1%nat ∨ length args = 3%nat →
  (∀ a, a ∈ args →
     String.prefix "-c" a = false ∧ String.prefix "-t" a = false) →
  String.prefix "-c" flag = true ∨ String.prefix "-t" flag = true →
  parse_args atoi (prog :: args ++ [flag]) = None
  ∧ main atoi draw cin (prog :: args ++ [flag]) = None.
Proof.
  intros Hlen Hno Hflag.
  assert (∀ cfg, scan_args atoi (args ++ [flag]) cfg = None) as Hscan.
  { clear Hlen. induction args as [|a args IH]; intros cfg.
    - cbn [app scan_args].
      destruct (String.prefix "-c" flag); [done|].
      by destruct Hflag as [?| ->].
    - cbn [app scan_args]. destruct (Hno a ltac:(left)) as (-> & ->).
      apply IH. intros b Hb. apply Hno. by right. }
  assert (parse_args atoi (prog :: args ++ [flag]) = None) as Hparse.
  { unfold parse_args. cbn [length tail]. rewrite length_app. cbn [length].
    destruct Hlen as [-> | ->]; cbn; apply Hscan. }
  split; [exact Hparse|]. unfold main. rewrite Hparse.
  destruct ((length (prog :: args ++ [flag]) =? 2)%nat
            && String.prefix "-h" (nth 1 (prog :: args ++ [flag]) ""))
    eqn:Hh; [|done].
  apply andb_true_iff in Hh as [Hl%Nat.eqb_eq _].
  cbn [length] in Hl. rewrite length_app in Hl. cbn [length] in Hl. lia.
Qed.

Lemma dangling_flag_witness :
  let atoi := λ s : string, if String.eqb s "4" then 4 else 0 in
  length ["4"] = 1%nat
  ∧ String.prefix "-c" "-c" = true
  ∧ main atoi (λ _, 1) [1; 1; 1; 1] ["mastermind"; "4"; "-c"] = None.
Proof.
  intros atoi. split; [reflexivity|]. split; [reflexivity|].
  refine (proj2 (dangling_flag atoi (λ _, 1) [1; 1; 1; 1] "mastermind" "-c"
                   ["4"] (or_introl eq_refl) _ (or_introl eq_refl))).
  intros a Ha. apply list_elem_of_singleton in Ha. subst a.
  split; reflexivity.
Defined.

(** * The game loop of [main] *)

Lemma read_guess_full (arr g rest : list Z) :
  length arr = 4%nat → length g = 4%nat →
  read_guess arr (g ++ rest) = (g, rest).
Proof.
  intros (a & b & c & d & ->)%length4 (e & f & h & k & ->)%length4.
  reflexivity.
Qed.

Lemma read_guess_eof (arr : list Z) : read_guess arr [] = (arr, []).
Proof. reflexivity. Qed.

Lemma read_guess_length (arr cin : list Z) :
  length (read_guess arr cin).1 = length arr.
Proof.
  unfold read_guess. generalize slots. intros ps. revert arr cin.
  induction ps as [|i ps IH]; intros arr cin; [done|].
  cbn [fold_left snd fst]. destruct cin as [|v cin'].
  - apply IH.
  - rewrite IH. apply length_insert.
Qed.



Lemma counter_decreases self pegs :
  m_tries_allowed self > 0 →
  (Z.to_nat (m_tries_allowed (guess pegs self).2)
   < Z.to_nat (m_tries_allowed self))%nat.
Proof.
  intros Hpos. rewrite guess_state. cbn [m_tries_allowed]. unfold u32.
  pose proof (Z.mod_pos_bound (m_tries_allowed self - 1) UINT32_MOD
                ltac:(reflexivity)).
  pose proof (Z.mod_le (m_tries_allowed self - 1) UINT32_MOD
                ltac:(lia) ltac:(reflexivity)).
  lia.
Qed.

Lemma game_loop_total fuel peg_colors game arr cin :
  (Z.to_nat (m_tries_allowed game) < fuel)%nat →
  ∃ out, game_loop fuel peg_colors game arr cin = Some (out, 0).
Proof.
  revert game arr cin.
  induction fuel as [|fuel IH]; intros game arr cin Hf; [lia|].
  cbn [game_loop turnsLeft fst].
  destruct (Z.gtb_spec (m_tries_allowed game) 0) as [Hpos|Hz]; [|eauto].
  destruct (read_guess arr cin) as [arr' cin'].
  pose proof (counter_decreases game arr' ltac:(lia)) as Hdec.
  destruct (guess arr' game) as [sc game']. cbn [snd] in Hdec.
  destruct (win sc); [eauto|].
  destruct (IH game' arr' cin' ltac:(lia)) as [out ->]. eauto.
Qed.

Lemma game_loop_fuel fuel fuel' peg_colors game arr cin :
  (Z.to_nat (m_tries_allowed game) < fuel)%nat →
  (Z.to_nat (m_tries_allowed game) < fuel')%nat →
  game_loop fuel peg_colors game arr cin =
  game_loop fuel' peg_colors game arr cin.
Proof.
  revert fuel' game arr cin.
  induction fuel as [|fuel IH]; intros fuel' game arr cin Hf Hf'; [lia|].
  destruct fuel' as [|fuel']; [lia|].
  cbn [game_loop turnsLeft fst].
  destruct (Z.gtb_spec (m_tries_allowed game) 0) as [Hpos|Hz]; [|done].
  destruct (read_guess arr cin) as [arr' cin'].
  pose proof (counter_decreases game arr' ltac:(lia)) as Hdec.
  destruct (guess arr' game) as [sc game']. cbn [snd] in Hdec.
  destruct (win sc); [done|].
  by rewrite (IH fuel' game' arr' cin') by lia.
Qed.

(** X12.  The game always comes to an end, whatever is typed and even when
    the input runs out: once the loop condition may be evaluated more often
    than there are tries left, the loop has a result, the result is the same
    for every such bound, and the value returned is 0. *)
Theorem game_loop_returns (fuel : nat) (peg_colors : Z) (game : Mastermind)
    (guess_arr cin : list Z) :
  (Z.to_nat (m_tries_allowed game) < fuel)%nat →
  (∃ out, game_loop fuel peg_colors game guess_arr cin = Some (out, 0))
  ∧ game_loop fuel peg_colors game guess_arr cin =
    game_loop (S (Z.to_nat (m_tries_allowed game))) peg_colors game
              guess_arr cin.
Proof.
  intros Hf. split; [by apply game_loop_total|]. apply game_loop_fuel; lia.
Qed.

Lemma game_loop_returns_witness :
  let game := mkMastermind [1; 2; 3; 4] 8 2 in
  (Z.to_nat (m_tries_allowed game) < 7)%nat
  ∧ ∃ out, game_loop 7 8 game [0; 0; 0; 0] [4; 3] = Some (out, 0).
Proof.
  intros game.
  assert (Z.to_nat (m_tries_allowed game) < 7)%nat as Hf by (simpl; lia).
  split; [exact Hf|].
  exact (proj1 (game_loop_returns 7 8 game [0; 0; 0; 0] [4; 3] Hf)).
Defined.

Lemma last_cons_default {A} (g : A) (gs : list A) d :
  List.last (g :: gs) d = List.last gs g.
Proof.
  revert g d. induction gs as [|h gs IH]; intros g d; [done|].
  change (List.last (g :: h :: gs) d) with (List.last (h :: gs) d).
  by rewrite !IH.
Qed.








(** X15.  End of input does not end the game: the guess array keeps the
    last guess read, so an input that stops after the complete guesses [gs]
    gives the same result as one in which the last of them (or the initial
    array, if there is none) is entered again any number of times. *)
Theorem end_of_input_repeats (fuel : nat) (peg_colors : Z) (game : Mastermind)
    (guess_arr : list Z) (gs : list (list Z)) (n : nat) :
  length guess_arr = 4%nat →
  Forall (λ g, length g = 4%nat) gs →
  game_loop fuel peg_colors game guess_arr (concat gs) =
  game_loop fuel peg_colors game guess_arr
            (concat (gs ++ replicate n (List.last gs guess_arr))).
Proof.
  revert game guess_arr gs n.
  induction fuel as [|fuel IH]; intros game arr gs n Harr Hgs; [done|].
  cbn [game_loop turnsLeft fst].
  destruct (Z.gtb_spec (m_tries_allowed game) 0) as [Hpos|Hz]; [|done].
  destruct Hgs as [|g gs Hg Hgs].
  - cbn [concat app List.last]. rewrite read_guess_eof.
    destruct n as [|n].
    + cbn [replicate concat]. by rewrite read_guess_eof.
    + cbn [replicate concat]. rewrite read_guess_full by done.
      destruct (guess arr game) as [sc game'].
      destruct (win sc); [done|].
      pose proof (IH game' arr [] n Harr ltac:(constructor)) as Hrec.
      cbn [concat app List.last] in Hrec. by rewrite Hrec.
  - rewrite last_cons_default. cbn [concat app].
    rewrite !read_guess_full by done.
    destruct (guess g game) as [sc game'].
    destruct (win sc); [done|].
    by rewrite (IH game' g gs n).
Qed.

Lemma end_of_input_repeats_witness :
  let game := mkMastermind [1; 2; 3; 4] 8 3 in
  length [0; 0; 0; 0] = 4%nat
  ∧ Forall (λ g : list Z, length g = 4%nat) [[4; 3; 2; 1]]
  ∧ game_loop 4 8 game [0; 0; 0; 0] [4; 3; 2; 1] =
    game_loop 4 8 game [0; 0; 0; 0] [4; 3; 2; 1; 4; 3; 2; 1; 4; 3; 2; 1].
Proof.
  intros game.
  assert (Forall (λ g : list Z, length g = 4%nat) [[4; 3; 2; 1]]) as Hgs
    by (repeat constructor).
  split; [reflexivity|]. split; [exact Hgs|].
  exact (end_of_input_repeats 4 8 game [0; 0; 0; 0] [[4; 3; 2; 1]] 2
           eq_refl Hgs).
Defined.



(** * [main] as a whole *)

(** X16.  [main] has a result unless the scan of the arguments runs past
    the end of [argv], and the value it returns is always 0: after the
    usage text, after a game won and after a game lost. *)
Theorem main_returns_zero (atoi : string → Z) (draw : nat → Z) (cin : list Z)
    (argv : list string) :
  (main atoi draw cin argv = None ↔
   parse_args atoi argv = None
   ∧ ¬ (length argv = 2%nat ∧ String.prefix "-h" (nth 1 argv "") = true))
  ∧ (∀ out code, main atoi draw cin argv = Some (out, code) → code = 0).
Proof.
  unfold main.
  destruct ((length argv =? 2)%nat && String.prefix "-h" (nth 1 argv ""))
    eqn:Hh.
  { apply andb_true_iff in Hh as [Hl%Nat.eqb_eq Hp].
    split; [split; [done|tauto]|]. by intros out code [= _ <-]. }
  assert (¬ (length argv = 2%nat ∧ String.prefix "-h" (nth 1 argv "") = true))
    as Hnh.
  { intros [Hl Hp]. by rewrite Hl, Hp in Hh. }
  destruct (parse_args atoi argv) as [cfg|]; [|split; [tauto|done]].
  destruct (clamp_config cfg) as [warnings [peg_colors tries_allowed]].
  destruct (game_loop_total (S (Z.to_nat tries_allowed)) peg_colors
              (Mastermind_new peg_colors tries_allowed draw)
              (replicate (Z.to_nat PEG_SLOTS) 0) cin) as [out ->];
    [cbn [Mastermind_new m_tries_allowed]; lia|].
  split; [split; [done|by intros [? _]]|]. by intros out' code [= _ <-].
Qed.



(** X18.  The intended use of the flags.  A [-c] flag and a [-t] flag, each
    followed by its value, set the colour count and the tries in either
    order, and one of them alone leaves the other setting at its default (8
    colours, 10 tries); the argument after a flag is always taken as its
    value.  Values within bounds reach the game unchanged and without a
    warning. *)
Theorem flags_take_effect (atoi : string → Z) (prog fc ft a b : string) :
  String.prefix "-c" fc = true → String.prefix "-t" ft = true →
  parse_args atoi [prog; fc; a; ft; b] = Some (u32 (atoi a), u32 (atoi b))
  ∧ parse_args atoi [prog; ft; b; fc; a] = Some (u32 (atoi a), u32 (atoi b))
  ∧ parse_args atoi [prog; fc; a] = Some (u32 (atoi a), 10)
  ∧ parse_args atoi [prog; ft; b] = Some (8, u32 (atoi b))
  ∧ (2 <= atoi a <= 10 → 2 <= atoi b < 2 ^ 32 →
     clamp_config (u32 (atoi a), u32 (atoi b)) = ([], (atoi a, atoi b))).
Proof.
  intros Hc Ht. pose proof (flag_t_not_c ft Ht) as Htc.
  unfold parse_args. cbn [length Nat.eqb orb tail scan_args].
  rewrite ?Hc, ?Htc, ?Ht. cbn [scan_args fst snd]. rewrite ?Hc, ?Htc, ?Ht.
  do 4 (split; [reflexivity|]).
  intros Ha Hb. rewrite !u32_small by (unfold is_u32, UINT32_MOD; lia).
  unfold clamp_config, MAX_PEG_COLORS, MIN_PEG_COLORS, MIN_TRIES_ALLOWED.
  destruct (Z.gtb_spec (atoi a) (2 + 8)); [lia|].
  destruct (Z.ltb_spec (atoi a) 2); [lia|].
  destruct (Z.ltb_spec (atoi b) 2); [lia|]. reflexivity.
Qed.

Lemma flags_take_effect_witness :
  let atoi := λ s : string,
    if String.eqb s "6" then 6 else if String.eqb s "12" then 12 else 0 in
  String.prefix "-c" "-c" = true ∧ String.prefix "-t" "-tries" = true
  ∧ parse_args atoi ["mastermind"; "-tries"; "12"; "-c"; "6"] = Some (6, 12)
  ∧ clamp_config (6, 12) = ([], (6, 12)).
Proof.
  intros atoi. split; [reflexivity|]. split; [reflexivity|].
  destruct (flags_take_effect atoi "mastermind" "-c" "-tries" "6" "12"
              eq_refl eq_refl) as (_ & Hp & _ & _ & Hcl).
  split; [exact Hp|].
  apply (Hcl ltac:(change (atoi "6") with 6; lia)
             ltac:(change (atoi "12") with 12; lia)).
Defined.

(** * The score and the order of the positions *)

Lemma filter_length_Permutation {A} (f : A → bool) (l k : list A) :
  l ≡ₚ k → length (List.filter f l) = length (List.filter f k).
Proof.
  induction 1 as [|x l k _ IH|x y l|l k m _ IH1 _ IH2]; simpl.
  - done.
  - destruct (f x); simpl; by rewrite IH.
  - by destruct (f x), (f y).
  - by rewrite IH1.
Qed.

Lemma exact_count_combine (A B : list Z) :
  length A = 4%nat → length B = 4%nat →
  exact_count A B =
  Z.of_nat (length (List.filter (λ p, p.1 =? p.2) (combine A B))).
Proof.
  intros (a & b & c & d & ->)%length4 (e & f & g & h & ->)%length4.
  unfold exact_count, slots, same_at. simpl.
  by destruct (a =? e), (b =? f), (c =? g), (d =? h).
Qed.

Lemma combine_fst_snd (A B : list Z) :
  length A = 4%nat → length B = 4%nat →
  map fst (combine A B) = A ∧ map snd (combine A B) = B.
Proof.
  intros (a & b & c & d & ->)%length4 (e & f & g & h & ->)%length4.
  by split.
Qed.

Lemma color_matches_Permutation colors A A' B B' :
  A' ≡ₚ A → B' ≡ₚ B →
  color_matches colors A' B' = color_matches colors A B.
Proof.
  intros HA HB. rewrite !color_matches_sum. apply sum_over_ext. intros v _.
  pose proof (proj1 (Permutation_count_occ Z.eq_dec A' A) HA v) as Ha.
  pose proof (proj1 (Permutation_count_occ Z.eq_dec B' B) HB v) as Hb.
  unfold occurrences. by rewrite Ha, Hb.
Qed.

(** X19.  The order of the positions does not matter to the score:
    rearranging the guess and the secret in the same way, so that the same
    pairs (guess peg, secret peg) face each other, leaves the black keys, the
    white keys and the win flag as they were. *)
Theorem score_rearrangement (pegs pegs' : list Z) (self self' : Mastermind) :
  length pegs = 4%nat → length (m_hidden_pegs self) = 4%nat →
  length pegs' = 4%nat → length (m_hidden_pegs self') = 4%nat →
  combine pegs' (m_hidden_pegs self') ≡ₚ combine pegs (m_hidden_pegs self) →
  (guess pegs' self').1 = (guess pegs self).1.
Proof.
  intros Hp Hh Hp' Hh' Hperm.
  destruct (combine_fst_snd pegs (m_hidden_pegs self) Hp Hh) as [Hf Hs].
  destruct (combine_fst_snd pegs' (m_hidden_pegs self') Hp' Hh') as [Hf' Hs'].
  assert (pegs' ≡ₚ pegs) as HP.
  { rewrite <- Hf, <- Hf'. by apply Permutation_map. }
  assert (m_hidden_pegs self' ≡ₚ m_hidden_pegs self) as HH.
  { rewrite <- Hs, <- Hs'. by apply Permutation_map. }
  destruct (cover_both pegs pegs) as (Hnd & Hcol & _).
  rewrite (guess_score pegs self _ Hp Hh Hnd Hcol).
  rewrite (guess_score pegs' self' (remove_dups (pegs ++ pegs))); try done.
  - rewrite (color_matches_Permutation _ pegs pegs' _ _ HP HH).
    rewrite !exact_count_combine by done.
    by rewrite (filter_length_Permutation _ _ _ Hperm).
  - intros v Hv. apply Hcol. by rewrite <- HP.
Qed.

Lemma score_rearrangement_witness :
  let self := mkMastermind [1; 1; 5; 2] 6 10 in
  let self' := mkMastermind [2; 5; 1; 1] 6 4 in
  length [5; 1; 0; 1] = 4%nat ∧ length (m_hidden_pegs self) = 4%nat
  ∧ combine [1; 0; 1; 5] (m_hidden_pegs self')
    ≡ₚ combine [5; 1; 0; 1] (m_hidden_pegs self)
  ∧ (guess [1; 0; 1; 5] self').1 = (guess [5; 1; 0; 1] self).1.
Proof.
  intros self self'.
  assert (combine [1; 0; 1; 5] (m_hidden_pegs self')
          ≡ₚ combine [5; 1; 0; 1] (m_hidden_pegs self)) as Hperm.
  { change ([(1, 2); (0, 5); (1, 1); (5, 1)]
            ≡ₚ rev [(1, 2); (0, 5); (1, 1); (5, 1)]).
    apply Permutation_rev. }
  split; [reflexivity|]. split; [reflexivity|]. split; [exact Hperm|].
  exact (score_rearrangement [5; 1; 0; 1] [1; 0; 1; 5] self self'
           eq_refl eq_refl eq_refl eq_refl Hperm).
Defined.
